(** * ace-auth: session stores and the request gatekeeper

    A shallow embedding of the three session stores of the repository
    (MemoryStore, MongoStore, PostgresStore), of the older MongoStore copy and
    of the Express gatekeeper middleware, with the properties the
    specification states about them.

    Conventions.
    - Time is in milliseconds, an integer ([Z]); every operation that reads
      the clock ([Date.now()], [new Date()], SQL [NOW()]) reads it once and
      takes that reading as its [now] argument.  [ttlSeconds] is an integer.
    - An [async] method is a state transformer that returns or throws
      ([Eff]); the awaits of one call run without interleaving.
    - JavaScript values are the values JSON can denote ([json]); a property
      read that yields [undefined] is [None]. *)

From stdpp Require Import base option list strings gmap pretty.
From Stdlib Require Import ZArith Ascii String Lia.

Set Warnings "-register-all".
Open Scope string_scope.
Open Scope list_scope.
Open Scope Z_scope.

(** ** JavaScript values and exceptions *)

Inductive json : Type :=
| JNull
| JBool (b : bool)
| JNum (n : Z)
| JString (s : string)
| JArray (l : list json)
| JObject (members : list (string * json)).

Inductive exn : Type :=
| SyntaxError
| TypeError
| Error (message : string).

Inductive outcome (A : Type) : Type :=
| Ok (a : A)
| Throw (e : exn).
Arguments Ok {A} a.
Arguments Throw {A} e.

(** An effectful method over a store state [S]: the state after the call is
    kept also when the call throws. *)
Definition Eff (S A : Type) : Type := S -> outcome A * S.

Definition ret {S A} (a : A) : Eff S A := fun s => (Ok a, s).
Definition throw {S A} (e : exn) : Eff S A := fun s => (Throw e, s).
Definition bind {S A B} (m : Eff S A) (k : A -> Eff S B) : Eff S B :=
  fun s => match m s with
           | (Ok a, s') => k a s'
           | (Throw e, s') => (Throw e, s')
           end.
Definition lift {S A} (o : outcome A) : Eff S A := fun s => (o, s).
Definition gets {S A} (f : S -> A) : Eff S A := fun s => (Ok (f s), s).

Declare Scope eff_scope.
Delimit Scope eff_scope with eff.
Notation "'let*' x := m 'in' k" := (bind m (fun x => k))
  (at level 10, x name, m at level 100, k at level 200) : eff_scope.

(** [v.name] for a name that is no built-in property of strings or arrays
    (the sources read [id] and [_id] only): [TypeError] on [null]. *)
Definition get_prop (v : json) (name : string) : outcome (option json) :=
  match v with
  | JNull => Throw TypeError
  | JObject members => Ok (snd <$> List.find (fun kv => String.eqb (fst kv) name) members)
  | _ => Ok None
  end.

(** [x === userId] for a string [userId]. *)
Definition strict_eq_string (x : option json) (userId : string) : bool :=
  match x with
  | Some (JString s) => String.eqb s userId
  | _ => false
  end.

(** ** JSON text

    [JSON.parse] and [JSON.stringify] are built-ins of the language.  The
    stores are defined over any implementation of them ([JSON]); [JsonText]
    below implements the fragment the worked examples need. *)

Class JSON : Type := {
  JSON_parse : string -> option json;      (* None: SyntaxError *)
  JSON_stringify : json -> string
}.

Definition parse_or_throw `{JSON} (text : string) : outcome json :=
  match JSON_parse text with
  | Some v => Ok v
  | None => Throw SyntaxError
  end.

Module JsonText.

(** The fragment: numbers are integer literals (no fraction, no exponent),
    strings have no [\u] escape, object keys are not array indices (so
    that member order is insertion order). *)

Definition dquote : ascii := "034"%char.
Definition backslash : ascii := "092"%char.
Definition quoted (s : string) : string := String dquote (s +:+ String dquote "").

Definition is_ws (c : ascii) : bool :=
  match nat_of_ascii c with
  | 32%nat | 9%nat | 10%nat | 13%nat => true
  | _ => false
  end.

Definition is_digit (c : ascii) : bool :=
  let n := nat_of_ascii c in (48 <=? n)%nat && (n <=? 57)%nat.

Fixpoint skip_ws (s : string) : string :=
  match s with
  | String c r => if is_ws c then skip_ws r else s
  | EmptyString => s
  end.

Definition hex_digit (n : nat) : ascii :=
  ascii_of_nat (if (n <? 10)%nat then 48 + n else 87 + n).

Definition escape_char (c : ascii) : string :=
  let n := nat_of_ascii c in
  if (n =? 34)%nat then String backslash (String dquote "")
  else if (n =? 92)%nat then String backslash (String backslash "")
  else if (n =? 8)%nat then String backslash "b"
  else if (n =? 12)%nat then String backslash "f"
  else if (n =? 10)%nat then String backslash "n"
  else if (n =? 13)%nat then String backslash "r"
  else if (n =? 9)%nat then String backslash "t"
  else if (n <? 32)%nat then
    String backslash ("u00" +:+ String (hex_digit (n / 16)) (String (hex_digit (n mod 16)) ""))
  else String c "".

Fixpoint escape (s : string) : string :=
  match s with
  | String c r => escape_char c +:+ escape r
  | EmptyString => ""
  end.

Definition quote (s : string) : string := quoted (escape s).

Fixpoint join (sep : string) (l : list string) : string :=
  match l with
  | [] => ""
  | [x] => x
  | x :: r => x +:+ sep +:+ join sep r
  end.

Fixpoint stringify (v : json) : string :=
  match v with
  | JNull => "null"
  | JBool true => "true"
  | JBool false => "false"
  | JNum n => pretty n
  | JString s => quote s
  | JArray l => "[" +:+ join "," (List.map stringify l) +:+ "]"
  | JObject members =>
      "{" +:+ join "," (List.map (fun kv => quote (fst kv) +:+ ":" +:+ stringify (snd kv)) members)
          +:+ "}"
  end.

Definition unescape (c : ascii) : option ascii :=
  match nat_of_ascii c with
  | 34%nat => Some dquote
  | 92%nat => Some backslash
  | 47%nat => Some "/"%char
  | 98%nat => Some "008"%char
  | 102%nat => Some "012"%char
  | 110%nat => Some "010"%char
  | 114%nat => Some "013"%char
  | 116%nat => Some "009"%char
  | _ => None
  end.

(** The characters of a string literal, after its opening quote. *)
Fixpoint parse_chars (s : string) : option (string * string) :=
  match s with
  | EmptyString => None
  | String c r =>
      if Ascii.eqb c dquote then Some ("", r)
      else if Ascii.eqb c backslash then
        match r with
        | String e r' =>
            match unescape e, parse_chars r' with
            | Some c', Some (str, rest) => Some (String c' str, rest)
            | _, _ => None
            end
        | EmptyString => None
        end
      else if (nat_of_ascii c <? 32)%nat then None
      else match parse_chars r with
           | Some (str, rest) => Some (String c str, rest)
           | None => None
           end
  end.

Fixpoint parse_digits (acc : Z) (s : string) : Z * string :=
  match s with
  | String c r =>
      if is_digit c then parse_digits (10 * acc + (Z.of_nat (nat_of_ascii c) - 48)) r
      else (acc, s)
  | EmptyString => (acc, s)
  end.

Definition starts_fraction (s : string) : bool :=
  match s with
  | String c _ => Ascii.eqb c "." || Ascii.eqb c "e" || Ascii.eqb c "E"
  | EmptyString => false
  end.

(** [-]? ( 0 | [1-9][0-9]* ), not followed by a fraction or an exponent. *)
Definition parse_int (s : string) : option (Z * string) :=
  let '(neg, s1) := match s with
                    | String c r => if Ascii.eqb c "-" then (true, r) else (false, s)
                    | EmptyString => (false, s)
                    end in
  match s1 with
  | String c r =>
      if negb (is_digit c) then None
      else
        let '(n, rest) := if Ascii.eqb c "0" then (0, r) else parse_digits 0 s1 in
        if starts_fraction rest then None
        else Some (if neg then - n else n, rest)
  | EmptyString => None
  end.

Fixpoint strip_prefix (p s : string) : option string :=
  match p, s with
  | EmptyString, _ => Some s
  | String a p', String b s' => if Ascii.eqb a b then strip_prefix p' s' else None
  | String _ _, EmptyString => None
  end.

Definition parse_literal (s : string) : option (json * string) :=
  match strip_prefix "null" s, strip_prefix "true" s, strip_prefix "false" s with
  | Some r, _, _ => Some (JNull, r)
  | _, Some r, _ => Some (JBool true, r)
  | _, _, Some r => Some (JBool false, r)
  | _, _, _ => None
  end.

(** [o[k] = v] on a member list: a repeated key keeps its place and takes
    the later value. *)
Fixpoint obj_set (k : string) (v : json) (members : list (string * json)) : list (string * json) :=
  match members with
  | [] => [(k, v)]
  | (k', v') :: r => if String.eqb k' k then (k, v) :: r else (k', v') :: obj_set k v r
  end.

Fixpoint parse_value (fuel : nat) (s : string) {struct fuel} : option (json * string) :=
  match fuel with
  | O => None
  | S n =>
      match skip_ws s with
      | EmptyString => None
      | String c r =>
          if Ascii.eqb c "{" then
            match skip_ws r with
            | String "}" r' => Some (JObject [], r')
            | _ => parse_members n r []
            end
          else if Ascii.eqb c "[" then
            match skip_ws r with
            | String "]" r' => Some (JArray [], r')
            | _ => parse_elements n r []
            end
          else if Ascii.eqb c dquote then
            match parse_chars r with
            | Some (str, rest) => Some (JString str, rest)
            | None => None
            end
          else if Ascii.eqb c "-" || is_digit c then
            match parse_int (String c r) with
            | Some (z, rest) => Some (JNum z, rest)
            | None => None
            end
          else parse_literal (String c r)
      end
  end
with parse_members (fuel : nat) (s : string) (acc : list (string * json)) {struct fuel}
  : option (json * string) :=
  match fuel with
  | O => None
  | S n =>
      match skip_ws s with
      | String c r =>
          if Ascii.eqb c dquote then
            match parse_chars r with
            | Some (k, r1) =>
                match skip_ws r1 with
                | String ":" r2 =>
                    match parse_value n r2 with
                    | Some (v, r3) =>
                        match skip_ws r3 with
                        | String "," r4 => parse_members n r4 (obj_set k v acc)
                        | String "}" r4 => Some (JObject (obj_set k v acc), r4)
                        | _ => None
                        end
                    | None => None
                    end
                | _ => None
                end
            | None => None
            end
          else None
      | EmptyString => None
      end
  end
with parse_elements (fuel : nat) (s : string) (acc : list json) {struct fuel}
  : option (json * string) :=
  match fuel with
  | O => None
  | S n =>
      match parse_value n s with
      | Some (v, r1) =>
          match skip_ws r1 with
          | String "," r2 => parse_elements n r2 (acc ++ [v])
          | String "]" r2 => Some (JArray (acc ++ [v]), r2)
          | _ => None
          end
      | None => None
      end
  end.

Definition parse (text : string) : option json :=
  match parse_value (S (String.length text)) text with
  | Some (v, rest) => match skip_ws rest with
                      | EmptyString => Some v
                      | String _ _ => None
                      end
  | None => None
  end.

End JsonText.

(** ** A JavaScript [Map] with string keys

    Entries are kept in insertion order; [set] on a present key keeps the
    entry's place. *)

Module JsMap.
Section JsMap.
Context {V : Type}.

Definition t : Type := list (string * V).

Fixpoint get (key : string) (m : t) : option V :=
  match m with
  | [] => None
  | (k, v) :: r => if String.eqb k key then Some v else get key r
  end.

Fixpoint set (key : string) (v : V) (m : t) : t :=
  match m with
  | [] => [(key, v)]
  | (k, v') :: r => if String.eqb k key then (k, v) :: r else (k, v') :: set key v r
  end.

Fixpoint delete (key : string) (m : t) : t :=
  match m with
  | [] => []
  | (k, v) :: r => if String.eqb k key then delete key r else (k, v) :: delete key r
  end.

Definition keys (m : t) : list string := List.map fst m.
End JsMap.
Arguments t V : clear implicits.
End JsMap.

(** ** MemoryStore (adapters/MemoryStore) *)

Module MemoryStore.

Record Item : Type := { value : json; expiresAt : Z }.

(** [intervals] maps a key to its pending timer, represented by the time
    at which the timer becomes due. *)
Record t : Type := {
  cache : JsMap.t Item;
  intervals : gmap string Z
}.

Definition new : t := {| cache := []; intervals := ∅ |}.

(** Node's [setTimeout(callback, ms)]: a delay outside
    [1 .. TIMEOUT_MAX] is replaced by 1. *)
Definition TIMEOUT_MAX : Z := 2147483647.
Definition timer_delay (ms : Z) : Z :=
  if (1 <=? ms) && (ms <=? TIMEOUT_MAX) then ms else 1.

Definition clear_interval (key : string) (s : t) : t :=
  if decide (is_Some (intervals s !! key))
  then {| cache := cache s; intervals := base.delete key (intervals s) |}
  else s.

Definition set (now : Z) (key : string) (value : json) (ttlSeconds : Z) : Eff t unit :=
  fun s =>
    let storedValue := value in
    let s1 := clear_interval key s in
    let expiresAt := now + ttlSeconds * 1000 in
    let cache' := JsMap.set key {| value := storedValue; expiresAt := expiresAt |} (cache s1) in
    let timeout := now + timer_delay (ttlSeconds * 1000) in
    (Ok tt, {| cache := cache'; intervals := <[key := timeout]> (intervals s1) |}).

Definition delete (key : string) : Eff t unit :=
  fun s =>
    let s1 := clear_interval key s in
    (Ok tt, {| cache := JsMap.delete key (cache s1); intervals := intervals s1 |}).

Definition get (now : Z) (key : string) : Eff t (option json) :=
  fun s =>
    match JsMap.get key (cache s) with
    | None => (Ok None, s)
    | Some item =>
        if now >? expiresAt item
        then (let* _ := delete key in ret None)%eff s
        else (Ok (Some (value item)), s)
    end.

Definition touch (now : Z) (key : string) (ttlSeconds : Z) : Eff t unit :=
  fun s =>
    match JsMap.get key (cache s) with
    | Some item => set now key (value item) ttlSeconds s
    | None => (Ok tt, s)
    end.

Section WithJSON.
Context `{JSON}.

(** [typeof v === 'string' ? v : JSON.stringify(v)] *)
Definition as_string (v : json) : string :=
  match v with
  | JString text => text
  | _ => JSON_stringify v
  end.

(** The body of the [for (const [key, item] of this.cache.entries())]
    loop; a [JSON.parse] failure skips the entry, a property read on
    [null] leaves the method with a [TypeError]. *)
Fixpoint findAllByUser_loop (entries : list (string * Item)) (userId : string)
    (sessions : list string) : outcome (list string) :=
  match entries with
  | [] => Ok sessions
  | (key, item) :: rest =>
      match (match value item with
             | JString text => JSON_parse text
             | v => Some v
             end) with
      | None => findAllByUser_loop rest userId sessions
      | Some user =>
          match get_prop user "id" with
          | Throw e => Throw e
          | Ok id =>
              if strict_eq_string id userId
              then findAllByUser_loop rest userId (sessions ++ [as_string (value item)])
              else
                match get_prop user "_id" with
                | Throw e => Throw e
                | Ok id' =>
                    if strict_eq_string id' userId
                    then findAllByUser_loop rest userId (sessions ++ [as_string (value item)])
                    else findAllByUser_loop rest userId sessions
                end
          end
      end
  end.

Definition findAllByUser (userId : string) : Eff t (list string) :=
  fun s => (findAllByUser_loop (cache s) userId [], s).
End WithJSON.

(** "Implementation omitted for benchmark speed": the body is empty. *)
Definition deleteByUser (userId : string) : Eff t unit := ret tt.

(** The callback [() => { this.delete(key) }] registered by [set], run by
    the event loop at a time [now] at which the timer of [key] is due; a
    timer that is not pending or not yet due does not run. *)
Definition timer_fires (now : Z) (key : string) : Eff t unit :=
  fun s =>
    match intervals s !! key with
    | Some due => if due <=? now then delete key s else (Ok tt, s)
    | None => (Ok tt, s)
    end.

(** Used by the properties. *)


End MemoryStore.

(** ** The MongoDB collection behind MongoStore *)

Module Mongo.

(** A session document, as [set] writes it. *)
Record Doc : Type := {
  _id : string;
  data : string;
  userId : option json;
  expiresAt : Z
}.

(** The filters [{ _id: key }] and [{ userId }]. *)
Inductive Query : Type :=
| ById (key : string)
| ByUserId (userId : string).

(** The update documents [{ $set: { _id, data, userId, expiresAt } }] and
    [{ $set: { expiresAt } }]. *)
Inductive Update : Type :=
| SetSession (_id data : string) (userId : option json) (expiresAt : Z)
| SetExpiresAt (expiresAt : Z).

Record Options : Type := { upsert : bool }.

(** What [find] hands back.  [Awaitable r]: an array or a thenable with no
    [toArray], which [await] resolves to [r].  [Cursor r]: an object with a
    [toArray()] that resolves to [r], and which [await] leaves as it is.
    In both, [r] is [Some docs] for an array of documents and [None] for
    anything else; a value that is no array is taken to have no [map]. *)
Inductive FindResult : Type :=
| Awaitable (r : option (list Doc))
| Cursor (r : option (list Doc)).

(** [interface MongoModel] *)
Class MongoModel (M : Type) : Type := {
  findOne : Query -> Eff M (option Doc);
  find : Query -> Eff M FindResult;
  updateOne : Query -> Update -> option Options -> Eff M unit;
  deleteOne : Query -> Eff M unit;
  deleteMany : Query -> Eff M unit
}.

(** *** A model that records the calls it receives *)

Inductive Call : Type :=
| CallFindOne (q : Query)
| CallFind (q : Query)
| CallUpdateOne (q : Query) (u : Update) (o : option Options)
| CallDeleteOne (q : Query)
| CallDeleteMany (q : Query).

Definition logged {M A} (c : Call) (op : Eff M A) : Eff (M * list Call) A :=
  fun w => let '(r, m') := op (fst w) in (r, (m', snd w ++ [c])).

#[global] Instance Logged (M : Type) `{MongoModel M} : MongoModel (M * list Call) := {
  findOne q := logged (CallFindOne q) (findOne q);
  find q := logged (CallFind q) (find q);
  updateOne q u o := logged (CallUpdateOne q u o) (updateOne q u o);
  deleteOne q := logged (CallDeleteOne q) (deleteOne q);
  deleteMany q := logged (CallDeleteMany q) (deleteMany q)
}.

(** *** The reference collection: documents keyed by [_id] *)

(** Equality match of the [userId] field against a string: the field is
    that string or an array that contains it. *)
Definition userId_matches (field : option json) (u : string) : bool :=
  match field with
  | Some (JString s) => String.eqb s u
  | Some (JArray l) =>
      existsb (fun x => match x with JString s => String.eqb s u | _ => false end) l
  | _ => false
  end.

Definition matches (q : Query) (entry : string * Doc) : bool :=
  match q with
  | ById key => String.eqb (fst entry) key
  | ByUserId u => userId_matches (userId (snd entry)) u
  end.

Definition matching (q : Query) (c : gmap string Doc) : list (string * Doc) :=
  match q with
  | ById key => match c !! key with
                | Some d => [(key, d)]
                | None => []
                end
  | ByUserId _ => List.filter (matches q) (map_to_list c)
  end.

Definition with_expiresAt (e : Z) (d : Doc) : Doc :=
  {| _id := _id d; data := data d; userId := userId d; expiresAt := e |}.

(** [$set] on the document stored under [key]; [_id] cannot change. *)
Definition apply_update (u : Update) (key : string) (d : Doc) : outcome Doc :=
  match u with
  | SetSession i dat uid e =>
      if String.eqb i key
      then Ok {| _id := i; data := dat; userId := uid; expiresAt := e |}
      else Throw (Error "the immutable field _id would be modified")
  | SetExpiresAt e => Ok (with_expiresAt e d)
  end.

(** [updateOne]: the first matching document is updated; with no match,
    [upsert] inserts the document that [$set] describes.  An upsert of
    [{ $set: { expiresAt } }] alone, which would insert a document without
    [data], is outside [Doc] and is rejected. *)
Definition collection_updateOne (q : Query) (u : Update) (o : option Options)
    : Eff (gmap string Doc) unit :=
  fun c =>
    match head (matching q c) with
    | Some (key, d) =>
        match apply_update u key d with
        | Ok d' => (Ok tt, <[key := d']> c)
        | Throw e => (Throw e, c)
        end
    | None =>
        match o, u with
        | Some {| upsert := true |}, SetSession i dat uid e =>
            (Ok tt, <[i := {| _id := i; data := dat; userId := uid; expiresAt := e |}]> c)
        | Some {| upsert := true |}, SetExpiresAt _ =>
            (Throw (Error "upsert of a partial document"), c)
        | _, _ => (Ok tt, c)
        end
    end.

Definition collection_deleteOne (q : Query) : Eff (gmap string Doc) unit :=
  fun c =>
    match head (matching q c) with
    | Some (key, _) => (Ok tt, base.delete key c)
    | None => (Ok tt, c)
    end.

Definition collection_deleteMany (q : Query) : Eff (gmap string Doc) unit :=
  fun c => (Ok tt, filter (fun entry => matches q entry = false) c).

#[global] Instance Collection : MongoModel (gmap string Doc) := {
  findOne q := gets (fun c => snd <$> head (matching q c));
  find q := gets (fun c => Awaitable (Some (List.map snd (matching q c))));
  updateOne := collection_updateOne;
  deleteOne := collection_deleteOne;
  deleteMany := collection_deleteMany
}.

(** The owner of a document, as the [{ userId }] filter sees it. *)
Definition owned_by (u : string) (d : Doc) : Prop :=
  userId_matches (userId d) u = true.

End Mongo.

(** ** MongoStore (src/adapters/MongoStore.ts) *)

Module MongoStore.
Import Mongo.

Section WithModel.
Context `{JSON} {M : Type} `{MongoModel M}.

Definition delete (key : string) : Eff M unit :=
  deleteOne (ById key).

(** [let parsed = {}; try { parsed = JSON.parse(value) } catch (e) { }] *)
Definition parsed_or_empty (value : string) : json :=
  match JSON_parse value with
  | Some v => v
  | None => JObject []
  end.

Definition set (now : Z) (key value : string) (ttlSeconds : Z) : Eff M unit :=
  let expiresAt := now + ttlSeconds * 1000 in
  let parsed := parsed_or_empty value in
  (let* id := lift (get_prop parsed "id") in
   updateOne (ById key) (SetSession key value id expiresAt) (Some {| upsert := true |}))%eff.

Definition get (now : Z) (key : string) : Eff M (option string) :=
  (let* doc := findOne (ById key) in
   match doc with
   | None => ret None
   | Some doc =>
       if now >? expiresAt doc
       then (let* _ := delete key in ret None)
       else ret (Some (data doc))
   end)%eff.

Definition touch (now : Z) (key : string) (ttlSeconds : Z) : Eff M unit :=
  let expiresAt := now + ttlSeconds * 1000 in
  updateOne (ById key) (SetExpiresAt expiresAt) None.

Definition findAllByUser (userId : string) : Eff M (list string) :=
  (let* result := find (ByUserId userId) in
   let docs := match result with
               | Cursor r => r
               | Awaitable r => r
               end in
   match docs with
   | None => ret []
   | Some docs => ret (List.map data docs)
   end)%eff.

Definition deleteByUser (userId : string) : Eff M unit :=
  deleteMany (ByUserId userId).
End WithModel.
End MongoStore.

(** ** The older MongoStore (the copy that follows the gatekeeper) *)

Module MongoStoreOld.
Import Mongo.

Section WithModel.
Context `{JSON} {M : Type} `{MongoModel M}.

Definition delete (key : string) : Eff M unit :=
  deleteOne (ById key).

Definition set (now : Z) (key value : string) (ttlSeconds : Z) : Eff M unit :=
  let expiresAt := now + ttlSeconds * 1000 in
  (let* parsed := lift (parse_or_throw value) in
   let* id := lift (get_prop parsed "id") in
   updateOne (ById key) (SetSession key value id expiresAt) (Some {| upsert := true |}))%eff.

Definition get (now : Z) (key : string) : Eff M (option string) :=
  (let* doc := findOne (ById key) in
   match doc with
   | None => ret None
   | Some doc =>
       if now >? expiresAt doc
       then (let* _ := delete key in ret None)
       else ret (Some (data doc))
   end)%eff.

Definition touch (now : Z) (key : string) (ttlSeconds : Z) : Eff M unit :=
  let expiresAt := now + ttlSeconds * 1000 in
  updateOne (ById key) (SetExpiresAt expiresAt) None.

(** [docs.map] on the awaited value: a [TypeError] when it is no array. *)
Definition findAllByUser (userId : string) : Eff M (list string) :=
  (let* result := find (ByUserId userId) in
   match result with
   | Awaitable (Some docs) => ret (List.map data docs)
   | Awaitable None | Cursor _ => throw TypeError
   end)%eff.

Definition deleteByUser (userId : string) : Eff M unit :=
  deleteMany (ByUserId userId).
End WithModel.
End MongoStoreOld.

(** ** The PostgreSQL database behind PostgresStore *)

Module Pg.

(** A row of the session table of the required schema:
    [sid TEXT PRIMARY KEY, sess JSONB NOT NULL, user_id TEXT NOT NULL,
     expired_at TIMESTAMPTZ NOT NULL]. *)
Record Row : Type := {
  sid : string;
  sess : json;
  user_id : string;
  expired_at : Z
}.

(** The six statements of the store, with the interpolated table name and
    their parameters; [now] is the value of [NOW()] when the statement
    runs. *)
Inductive Query : Type :=
| Upsert (table : string) (sid : string) (sess : json) (user_id : option json) (expired_at : Z)
| SelectBySid (table : string) (sid : string)
| UpdateExpiredAt (table : string) (expired_at : Z) (sid : string)
| DeleteBySid (table : string) (sid : string)
| SelectLiveByUser (table : string) (user_id : string) (now : Z)
| DeleteByUserId (table : string) (user_id : string).

Definition table_of (q : Query) : string :=
  match q with
  | Upsert t _ _ _ _ | SelectBySid t _ | UpdateExpiredAt t _ _
  | DeleteBySid t _ | SelectLiveByUser t _ _ | DeleteByUserId t _ => t
  end.

(** How a JavaScript parameter reaches a column, through the driver and
    the server.  [to_text]: the text of a parameter bound to a TEXT column
    ([None] is SQL NULL).  [to_jsonb]: the value a JSONB column holds, and
    gives back, for a parameter ([None]: the server rejects it). *)
Class Codec : Type := {
  to_text : option json -> option string;
  to_jsonb : json -> option json
}.

Definition set_expired_at (e : Z) (r : Row) : Row :=
  {| sid := sid r; sess := sess r; user_id := user_id r; expired_at := e |}.

(** [pool.query] on a database of tables, each keyed by [sid]. *)
Definition query `{Codec} (q : Query) : Eff (gmap string (gmap string Row)) (list Row) :=
  fun db =>
    match db !! table_of q with
    | None => (Throw (Error "relation does not exist"), db)
    | Some rows =>
        match q with
        | Upsert t k s u e =>
            match to_jsonb s, to_text u with
            | Some s', Some u' =>
                (Ok [], <[t := <[k := {| sid := k; sess := s'; user_id := u'; expired_at := e |}]> rows]> db)
            | None, _ => (Throw (Error "invalid input for type json"), db)
            | _, None => (Throw (Error "null value in column user_id"), db)
            end
        | SelectBySid _ k => (Ok (option_list (rows !! k)), db)
        | UpdateExpiredAt t e k => (Ok [], <[t := alter (set_expired_at e) k rows]> db)
        | DeleteBySid t k => (Ok [], <[t := base.delete k rows]> db)
        | SelectLiveByUser _ u now =>
            (Ok (List.filter (fun r => String.eqb (user_id r) u && (expired_at r >? now))
                             (map_to_list rows).*2), db)
        | DeleteByUserId t u =>
            (Ok [], <[t := filter (fun entry => String.eqb (user_id (snd entry)) u = false) rows]> db)
        end
    end.

End Pg.

(** ** PostgresStore (adapters/PostgressStore) *)

Module PostgresStore.
Import Pg.

Record t : Type := { table : string }.

Definition is_name_char (c : ascii) : bool :=
  let n := nat_of_ascii c in
  ((65 <=? n)%nat && (n <=? 90)%nat) || ((97 <=? n)%nat && (n <=? 122)%nat) || (n =? 95)%nat.

Fixpoint all_chars (p : ascii -> bool) (s : string) : bool :=
  match s with
  | EmptyString => true
  | String c r => p c && all_chars p r
  end.

(** [/^[a-zA-Z_]+$/.test(tableName)] *)
Definition valid_table_name (tableName : string) : bool :=
  match tableName with
  | EmptyString => false
  | String _ _ => all_chars is_name_char tableName
  end.

(** [tableName] defaults to ['auth_sessions'] when it is not given. *)
Definition constructor (tableName : option string) : outcome t :=
  let tableName := default "auth_sessions" tableName in
  if negb (valid_table_name tableName)
  then Throw (Error "Invalid table name")
  else Ok {| table := tableName |}.

Section WithPool.
Context `{JSON} `{Codec}.
Variable this : t.

Definition delete (key : string) : Eff (gmap string (gmap string Row)) unit :=
  (let* _ := query (DeleteBySid (table this) key) in ret tt)%eff.

Definition set (now : Z) (key value : string) (ttlSeconds : Z)
    : Eff (gmap string (gmap string Row)) unit :=
  let expiresAt := now + ttlSeconds * 1000 in
  (let* parsed := lift (parse_or_throw value) in
   let* id := lift (get_prop parsed "id") in
   let* _ := query (Upsert (table this) key parsed id expiresAt) in
   ret tt)%eff.

Definition get (now : Z) (key : string) : Eff (gmap string (gmap string Row)) (option string) :=
  (let* result := query (SelectBySid (table this) key) in
   match result with
   | [] => ret None
   | row :: _ =>
       if now >? expired_at row
       then (let* _ := delete key in ret None)
       else ret (Some (JSON_stringify (sess row)))
   end)%eff.

Definition touch (now : Z) (key : string) (ttlSeconds : Z)
    : Eff (gmap string (gmap string Row)) unit :=
  let expiresAt := now + ttlSeconds * 1000 in
  (let* _ := query (UpdateExpiredAt (table this) expiresAt key) in ret tt)%eff.

Definition findAllByUser (now : Z) (userId : string)
    : Eff (gmap string (gmap string Row)) (list string) :=
  (let* result := query (SelectLiveByUser (table this) userId now) in
   ret (List.map (fun row => JSON_stringify (sess row)) result))%eff.

Definition deleteByUser (userId : string) : Eff (gmap string (gmap string Row)) unit :=
  (let* _ := query (DeleteByUserId (table this) userId) in ret tt)%eff.
End WithPool.
End PostgresStore.

(** ** The gatekeeper middleware (middleware/gatekeeper) *)

Module Gatekeeper.

(** What [auth.authorize(token)] resolves to. *)
Record AuthResult : Type := {
  valid : bool;
  user : option json;
  sessionId : option string;
  token : option string
}.

(** [req.headers.authorization] *)
Record Request : Type := { authorization : option string }.

(** What the middleware does to [req], [res] and [next], in order. *)
Inductive Action : Type :=
| Status (code : Z)
| SendJson (body : json)
| SetHeader (name value : string)
| AttachUser (user : option json)
| AttachSessionId (sessionId : option string)
| Next.

(** [s.split(sep)] for a one-character separator. *)
Fixpoint split (sep : ascii) (s : string) : list string :=
  match s with
  | EmptyString => [""]
  | String c r =>
      if Ascii.eqb c sep then "" :: split sep r
      else match split sep r with
           | h :: t => String c h :: t
           | [] => [String c ""]
           end
  end.

(** Truthiness of an optional string: [undefined] and [''] are falsy. *)
Definition truthy (s : option string) : bool :=
  match s with
  | None | Some EmptyString => false
  | Some (String _ _) => true
  end.

Definition error_body (message : string) : json := JObject [("error", JString message)].

Section WithAuth.
(** [auth.authorize]: resolves to a result or rejects. *)
Variable authorize : string -> outcome AuthResult.

Definition gatekeeper (req : Request) : list Action :=
  let authHeader := authorization req in
  if negb (truthy authHeader) then
    [Status 401; SendJson (error_body "Authorization header missing")]
  else
    let parts := split " " (default "" authHeader) in
    let scheme := parts !! 0%nat in
    let token := parts !! 1%nat in
    if negb (bool_decide (scheme = Some "Bearer")) || negb (truthy token) then
      [Status 401; SendJson (error_body "Invalid authorization format")]
    else
      match authorize (default "" token) with
      | Throw _ => [Status 500; SendJson (error_body "Authentication failed")]
      | Ok result =>
          if negb (valid result) then
            [Status 401; SendJson (error_body "Invalid or expired session")]
          else
            [AttachUser (user result); AttachSessionId (sessionId result)]
            ++ (if truthy (Gatekeeper.token result)
                then [SetHeader "X-Ace-Token" (default "" (Gatekeeper.token result));
                      SetHeader "Access-Control-Expose-Headers" "X-Ace-Token"]
                else [])
            ++ [Next]
      end.
End WithAuth.




(** The request carries the bearer credential [tok]: its header is
    [Bearer], one space and the non-empty [tok] (a further space ends the
    token). *)
Definition presents (req : Request) (tok : string) : Prop :=
  exists header,
    authorization req = Some header /\
    split " " header !! 0%nat = Some "Bearer" /\
    split " " header !! 1%nat = Some tok /\
    tok <> "".

End Gatekeeper.

(** ** The store contract and sequences of calls *)

(** Modelled from the spec: interfaces/IStore is not among the sources; these
    are the six operations of the Session Store Contract, with the
    signatures the three adapters share.  [V] is the type of a stored value
    ([any] for MemoryStore, [string] for the others). *)
Class IStore (S V : Type) : Type := {
  set : Z -> string -> V -> Z -> Eff S unit;
  get : Z -> string -> Eff S (option V);
  touch : Z -> string -> Z -> Eff S unit;
  delete : string -> Eff S unit;
  findAllByUser : Z -> string -> Eff S (list string);
  deleteByUser : string -> Eff S unit
}.

Inductive Op (V : Type) : Type :=
| OSet (key : string) (value : V) (ttlSeconds : Z)
| OGet (key : string)
| OTouch (key : string) (ttlSeconds : Z)
| ODelete (key : string)
| OFindAllByUser (userId : string)
| ODeleteByUser (userId : string).
Arguments OSet {V} key value ttlSeconds.
Arguments OGet {V} key.
Arguments OTouch {V} key ttlSeconds.
Arguments ODelete {V} key.
Arguments OFindAllByUser {V} userId.
Arguments ODeleteByUser {V} userId.

Inductive Result (V : Type) : Type :=
| RVoid
| RValue (v : option V)
| RList (l : list string).
Arguments RVoid {V}.
Arguments RValue {V} v.
Arguments RList {V} l.

Definition fmap_outcome {A B} (f : A -> B) (r : outcome A) : outcome B :=
  match r with
  | Ok a => Ok (f a)
  | Throw e => Throw e
  end.

(** One call, made when the clock reads [now]. *)
Definition step {S V} {store : IStore S V} (now : Z) (op : Op V) : Eff S (Result V) :=
  fun s =>
    match op with
    | OSet key value ttl => let '(r, s') := set now key value ttl s in (fmap_outcome (fun _ => RVoid) r, s')
    | OGet key => let '(r, s') := get now key s in (fmap_outcome RValue r, s')
    | OTouch key ttl => let '(r, s') := touch now key ttl s in (fmap_outcome (fun _ => RVoid) r, s')
    | ODelete key => let '(r, s') := delete key s in (fmap_outcome (fun _ => RVoid) r, s')
    | OFindAllByUser u => let '(r, s') := findAllByUser now u s in (fmap_outcome RList r, s')
    | ODeleteByUser u => let '(r, s') := deleteByUser u s in (fmap_outcome (fun _ => RVoid) r, s')
    end.

(** A sequence of calls, each awaited before the next; a call that throws
    does not stop the caller from making the next one. *)
Fixpoint run {S V} {store : IStore S V} (calls : list (Z * Op V)) (s : S)
    : list (outcome (Result V)) * S :=
  match calls with
  | [] => ([], s)
  | (now, op) :: rest =>
      let '(r, s') := step now op s in
      let '(rs, s'') := run rest s' in
      (r :: rs, s'')
  end.



#[global] Instance MemoryStore_IStore `{JSON} : IStore MemoryStore.t json := {
  set := MemoryStore.set;
  get := MemoryStore.get;
  touch := MemoryStore.touch;
  delete := MemoryStore.delete;
  findAllByUser := fun _ => MemoryStore.findAllByUser;
  deleteByUser := MemoryStore.deleteByUser
}.

#[global] Instance MongoStore_IStore `{JSON} {M : Type} `{Mongo.MongoModel M} : IStore M string := {
  set := MongoStore.set;
  get := MongoStore.get;
  touch := MongoStore.touch;
  delete := MongoStore.delete;
  findAllByUser := fun _ => MongoStore.findAllByUser;
  deleteByUser := MongoStore.deleteByUser
}.

Definition MongoStoreOld_IStore `{JSON} {M : Type} `{Mongo.MongoModel M} : IStore M string := {|
  set := MongoStoreOld.set;
  get := MongoStoreOld.get;
  touch := MongoStoreOld.touch;
  delete := MongoStoreOld.delete;
  findAllByUser := fun _ => MongoStoreOld.findAllByUser;
  deleteByUser := MongoStoreOld.deleteByUser
|}.

Definition PostgresStore_IStore `{JSON} `{Pg.Codec} (this : PostgresStore.t)
    : IStore (gmap string (gmap string Pg.Row)) string := {|
  set := PostgresStore.set this;
  get := PostgresStore.get this;
  touch := PostgresStore.touch this;
  delete := PostgresStore.delete this;
  findAllByUser := PostgresStore.findAllByUser this;
  deleteByUser := PostgresStore.deleteByUser this
|}.

(** The value passed to [set] parses as JSON. *)
Definition parses `{JSON} (op : Op string) : Prop :=
  match op with
  | OSet _ value _ => is_Some (JSON_parse value)
  | _ => True
  end.

(** Whenever [find] returns, it returns an array of documents (or a
    promise of one). *)
Definition find_returns_arrays (M : Type) `{Mongo.MongoModel M} : Prop :=
  forall q m r m', Mongo.find q m = (Ok r, m') -> exists docs, r = Mongo.Awaitable (Some docs).

(** The two MongoStore classes, over a model that records its calls. *)
Definition old_copy `{JSON} {M : Type} `{Mongo.MongoModel M}
    : IStore (M * list Mongo.Call) string := MongoStoreOld_IStore.
Definition current `{JSON} {M : Type} `{Mongo.MongoModel M}
    : IStore (M * list Mongo.Call) string := MongoStore_IStore.

(** The row stored under [key] in the table of the store. *)
Definition row_at (this : PostgresStore.t) (db : gmap string (gmap string Pg.Row))
    (key : string) : option Pg.Row :=
  match db !! PostgresStore.table this with
  | Some rows => rows !! key
  | None => None
  end.

(** What the event loop does to a MemoryStore between two moments: calls,
    and timers that fire. *)
Module MemoryEvents.
Inductive Event : Type :=
| Call (now : Z) (op : Op json)
| TimerFires (now : Z) (key : string).



Definition apply `{JSON} (e : Event) (s : MemoryStore.t) : MemoryStore.t :=
  match e with
  | Call now op => snd (step now op s)
  | TimerFires now key => snd (MemoryStore.timer_fires now key s)
  end.

Definition play `{JSON} (events : list Event) (s : MemoryStore.t) : MemoryStore.t :=
  fold_left (fun s e => apply e s) events s.
End MemoryEvents.

(** ** Concrete JSON and driver instances for the worked examples *)

Definition JsonText_JSON : JSON := {|
  JSON_parse := JsonText.parse;
  JSON_stringify := JsonText.stringify
|}.

Module NodePg.

(** node-postgres' [prepareValue]: [null] is NULL, an array becomes an
    array literal, any other object its JSON text, a scalar its
    [toString()]. *)
Definition escapeElement (s : string) : string :=
  JsonText.quoted
    ((fix go (s : string) : string :=
        match s with
        | EmptyString => ""
        | String c r =>
            if Ascii.eqb c JsonText.backslash || Ascii.eqb c JsonText.dquote
            then String JsonText.backslash (String c (go r))
            else String c (go r)
        end) s).

Fixpoint prepareValue (v : json) : option string :=
  match v with
  | JNull => None
  | JBool true => Some "true"
  | JBool false => Some "false"
  | JNum n => Some (pretty n)
  | JString s => Some s
  | JArray l =>
      Some ("{" +:+ JsonText.join ","
              (List.map (fun x => match x with
                                  | JArray _ => default "" (prepareValue x)
                                  | _ => match prepareValue x with
                                         | Some text => escapeElement text
                                         | None => "NULL"
                                         end
                                  end) l) +:+ "}")
  | JObject _ => Some (JsonText.stringify v)
  end.

(** The order in which a JSONB object keeps its keys: shorter first, then
    bytewise. *)
Definition key_le (a b : string) : bool :=
  (String.length a <? String.length b)%nat
  || ((String.length a =? String.length b)%nat && String.leb a b).

Fixpoint insert_member (m : string * json) (l : list (string * json)) : list (string * json) :=
  match l with
  | [] => [m]
  | m' :: r => if key_le (fst m) (fst m') then m :: l else m' :: insert_member m r
  end.

Fixpoint jsonb (v : json) : json :=
  match v with
  | JArray l => JArray (List.map jsonb l)
  | JObject members =>
      JObject (List.fold_right insert_member []
                 (List.map (fun kv => (fst kv, jsonb (snd kv))) members))
  | _ => v
  end.

Definition codec : Pg.Codec := {|
  Pg.to_text := fun u => match u with
                         | Some v => prepareValue v
                         | None => None
                         end;
  Pg.to_jsonb := fun s => match prepareValue s with
                          | Some text => jsonb <$> JsonText.parse text
                          | None => None
                          end
|}.

End NodePg.

(** ** Inputs of the worked examples *)

Module Samples.
Import JsonText.

(** The texts [{"id":"u1"}] and [{ "id": "u1" }]. *)
Definition session_u1 : string :=
  "{" +:+ quoted "id" +:+ ":" +:+ quoted "u1" +:+ "}".
Definition session_u1_spaced : string :=
  "{ " +:+ quoted "id" +:+ ": " +:+ quoted "u1" +:+ " }".

Definition auth_sessions : PostgresStore.t := {| PostgresStore.table := "auth_sessions" |}.
Definition empty_database : gmap string (gmap string Pg.Row) := {[ "auth_sessions" := ∅ ]}.
Definition empty_collection : gmap string Mongo.Doc := ∅.

Definition rotate (tok : string) : outcome Gatekeeper.AuthResult :=
  Ok {| Gatekeeper.valid := true; Gatekeeper.user := Some (JObject [("id", JString "u1")]);
        Gatekeeper.sessionId := Some "s1"; Gatekeeper.token := Some "t2" |}.

Definition basic_header : Gatekeeper.Request :=
  {| Gatekeeper.authorization := Some "Basic dTpw" |}.
Definition bearer_t1 : Gatekeeper.Request :=
  {| Gatekeeper.authorization := Some "Bearer t1" |}.
End Samples.

(** ** States of the worked examples *)

Module SampleStates.
Import Samples.
#[local] Existing Instance JsonText_JSON.
#[local] Existing Instance NodePg.codec.

(** Each store after [set("s1", '{"id":"u1"}', 1)] at time 0: the record
    expires at 1000. *)
Definition memory_s1 : MemoryStore.t :=
  snd (MemoryStore.set 0 "s1" (JString session_u1) 1 MemoryStore.new).
Definition collection_s1 : gmap string Mongo.Doc :=
  snd (MongoStore.set 0 "s1" session_u1 1 empty_collection).
Definition database_s1 : gmap string (gmap string Pg.Row) :=
  snd (PostgresStore.set auth_sessions 0 "s1" session_u1 1 empty_database).

(** The records they hold. *)
Definition item_s1 : MemoryStore.Item :=
  {| MemoryStore.value := JString session_u1; MemoryStore.expiresAt := 1000 |}.
Definition doc_s1 : Mongo.Doc :=
  {| Mongo._id := "s1"; Mongo.data := session_u1; Mongo.userId := Some (JString "u1");
     Mongo.expiresAt := 1000 |}.
Definition row_s1 : Pg.Row :=
  {| Pg.sid := "s1"; Pg.sess := JObject [("id", JString "u1")]; Pg.user_id := "u1";
     Pg.expired_at := 1000 |}.

Definition calls_u1 : list (Z * Op string) :=
  [(0, OSet "s1" session_u1 60); (1, OGet "s1"); (2, OTouch "s1" 60);
   (3, OFindAllByUser "u1"); (4, ODeleteByUser "u1"); (5, ODelete "s1")].
End SampleStates.

(** ** Vocabulary of the further properties *)

Module MemoryListing.
Section WithJSON.
Context `{JSON}.

(** The value [findAllByUser] inspects for an entry: the parsed text of a
    string, the value itself otherwise; [None] when the text is no JSON. *)
Definition parsed_value (item : MemoryStore.Item) : option json :=
  match MemoryStore.value item with
  | JString text => JSON_parse text
  | v => Some v
  end.

(** [user.id === userId || user._id === userId] on that value. *)
Definition owns (userId : string) (item : MemoryStore.Item) : bool :=
  match parsed_value item with
  | Some user =>
      match get_prop user "id", get_prop user "_id" with
      | Ok id, Ok id' => strict_eq_string id userId || strict_eq_string id' userId
      | _, _ => false
      end
  | None => false
  end.
End WithJSON.

(** Every cached key has a pending timer, and every pending timer a cached
    key. *)
Definition timers_match_cache (s : MemoryStore.t) : Prop :=
  forall key, is_Some (MemoryStore.intervals s !! key)
              <-> is_Some (JsMap.get key (MemoryStore.cache s)).
End MemoryListing.

(** * Properties *)

(** ** Facts about [JsMap] *)

Module JsMapFacts.
Section Facts.
Context {V : Type}.
Implicit Types (m : JsMap.t V) (key : string) (v : V).

Lemma get_set_eq key v m : JsMap.get key (JsMap.set key v m) = Some v.
Proof.
  induction m as [|[k v'] m IH]; simpl.
  - by rewrite String.eqb_refl.
  - destruct (String.eqb_spec k key) as [->|Hne]; simpl.
    + by rewrite String.eqb_refl.
    + by destruct (String.eqb_spec k key).
Qed.

Lemma get_set_ne key key' v m :
  key ≠ key' -> JsMap.get key' (JsMap.set key v m) = JsMap.get key' m.
Proof.
  intros Hne. induction m as [|[k v'] m IH]; simpl.
  - by destruct (String.eqb_spec key key').
  - destruct (String.eqb_spec k key) as [->|Hk]; simpl.
    + by destruct (String.eqb_spec key key').
    + by rewrite IH.
Qed.

Lemma get_delete_eq key m : JsMap.get key (JsMap.delete key m) = None.
Proof.
  induction m as [|[k v'] m IH]; simpl; [done|].
  destruct (String.eqb_spec k key) as [->|Hk]; simpl; [done|].
  by destruct (String.eqb_spec k key).
Qed.

Lemma get_delete_ne key key' m :
  key ≠ key' -> JsMap.get key' (JsMap.delete key m) = JsMap.get key' m.
Proof.
  intros Hne. induction m as [|[k v'] m IH]; simpl; [done|].
  destruct (String.eqb_spec k key) as [->|Hk]; simpl.
  - by destruct (String.eqb_spec key key').
  - by rewrite IH.
Qed.

Lemma delete_absent key m : JsMap.get key m = None -> JsMap.delete key m = m.
Proof.
  induction m as [|[k v'] m IH]; simpl; [done|].
  destruct (String.eqb_spec k key); [done|]. intros Hm. by rewrite IH.
Qed.

Lemma keys_set_present key v m :
  is_Some (JsMap.get key m) -> JsMap.keys (JsMap.set key v m) = JsMap.keys m.
Proof.
  unfold JsMap.keys. induction m as [|[k v'] m IH]; simpl.
  - by intros [? ?].
  - destruct (String.eqb_spec k key); simpl; [done|].
    intros Hm. f_equal. by apply IH.
Qed.
End Facts.
End JsMapFacts.

(** ** MemoryStore *)

Module MemoryStoreFacts.
Import MemoryStore JsMapFacts.

Lemma memory_clear_interval_eq key s :
  clear_interval key s = {| cache := cache s; intervals := base.delete key (intervals s) |}.
Proof.
  unfold clear_interval. case_decide as Hk; [done|].
  rewrite delete_id; [by destruct s|].
  by apply eq_None_not_Some.
Qed.

Lemma memory_set_eq now key v ttl s :
  MemoryStore.set now key v ttl s =
    (Ok tt, {| cache := JsMap.set key {| value := v; expiresAt := now + ttl * 1000 |} (cache s);
               intervals := <[key := now + timer_delay (ttl * 1000)]> (intervals s) |}).
Proof.
  unfold MemoryStore.set. rewrite memory_clear_interval_eq. simpl.
  by rewrite insert_delete_eq.
Qed.

Lemma memory_delete_eq key s :
  MemoryStore.delete key s =
    (Ok tt, {| cache := JsMap.delete key (cache s); intervals := base.delete key (intervals s) |}).
Proof. unfold MemoryStore.delete. by rewrite memory_clear_interval_eq. Qed.

(** Lazy expiry: a record read after its expiry is reported absent and
    removed, together with its timer. *)
Lemma memory_get_expired now key item s :
  JsMap.get key (cache s) = Some item ->
  expiresAt item < now ->
  MemoryStore.get now key s =
    (Ok None, {| cache := JsMap.delete key (cache s); intervals := base.delete key (intervals s) |}).
Proof.
  intros Hitem Hlt. unfold MemoryStore.get. rewrite Hitem.
  destruct (Z.gtb_spec now (expiresAt item)); [|lia].
  unfold bind, ret. by rewrite memory_delete_eq.
Qed.

(** A record read no later than its expiry is returned, and nothing changes. *)
Lemma memory_get_live now key item s :
  JsMap.get key (cache s) = Some item ->
  now <= expiresAt item ->
  MemoryStore.get now key s = (Ok (Some (value item)), s).
Proof.
  intros Hitem Hle. unfold MemoryStore.get. rewrite Hitem.
  by destruct (Z.gtb_spec now (expiresAt item)); [lia|].
Qed.

Lemma memory_get_absent now key s :
  JsMap.get key (cache s) = None -> MemoryStore.get now key s = (Ok None, s).
Proof. intros Hitem. unfold MemoryStore.get. by rewrite Hitem. Qed.

Lemma memory_touch_absent now key ttl s :
  JsMap.get key (cache s) = None -> MemoryStore.touch now key ttl s = (Ok tt, s).
Proof. intros Hitem. unfold MemoryStore.touch. by rewrite Hitem. Qed.

Lemma memory_touch_present now key ttl item s :
  JsMap.get key (cache s) = Some item ->
  MemoryStore.touch now key ttl s =
    (Ok tt, {| cache := JsMap.set key {| value := value item; expiresAt := now + ttl * 1000 |} (cache s);
               intervals := <[key := now + timer_delay (ttl * 1000)]> (intervals s) |}).
Proof. intros Hitem. unfold MemoryStore.touch. rewrite Hitem. apply memory_set_eq. Qed.
End MemoryStoreFacts.

(** ** MongoStore on the reference collection *)

Module MongoStoreFacts.
Import Mongo.

Section Facts.
Context `{JSON}.
Implicit Types (c : gmap string Doc) (key : string) (d : Doc).

Lemma mongo_collection_findOne key c : findOne (ById key) c = (Ok (c !! key), c).
Proof. simpl. unfold gets. by destruct (c !! key). Qed.

Lemma mongo_collection_deleteOne_eq key c :
  collection_deleteOne (ById key) c = (Ok tt, base.delete key c).
Proof.
  unfold collection_deleteOne; simpl.
  destruct (c !! key) as [d|] eqn:Hd; simpl; [done|].
  by rewrite delete_id.
Qed.

Lemma mongo_delete_eq key c : MongoStore.delete key c = (Ok tt, base.delete key c).
Proof. apply mongo_collection_deleteOne_eq. Qed.

Lemma mongo_get_expired now key d c :
  c !! key = Some d -> expiresAt d < now ->
  MongoStore.get now key c = (Ok None, base.delete key c).
Proof.
  intros Hd Hlt. unfold MongoStore.get, bind. rewrite mongo_collection_findOne, Hd.
  destruct (Z.gtb_spec now (expiresAt d)); [|lia].
  by rewrite mongo_delete_eq.
Qed.

Lemma mongo_get_live now key d c :
  c !! key = Some d -> now <= expiresAt d ->
  MongoStore.get now key c = (Ok (Some (data d)), c).
Proof.
  intros Hd Hle. unfold MongoStore.get, bind. rewrite mongo_collection_findOne, Hd.
  by destruct (Z.gtb_spec now (expiresAt d)); [lia|].
Qed.

Lemma mongo_get_absent now key c :
  c !! key = None -> MongoStore.get now key c = (Ok None, c).
Proof.
  intros Hd. unfold MongoStore.get, bind. by rewrite mongo_collection_findOne, Hd.
Qed.

Lemma mongo_touch_eq now key ttl c :
  MongoStore.touch now key ttl c = (Ok tt, alter (with_expiresAt (now + ttl * 1000)) key c).
Proof.
  unfold MongoStore.touch; simpl. unfold collection_updateOne; simpl.
  destruct (c !! key) as [d|] eqn:Hd; simpl; f_equal.
  - apply map_eq. intros k. destruct (decide (key = k)) as [->|Hne].
    + by rewrite lookup_insert_eq, lookup_alter_eq, Hd.
    + by rewrite lookup_insert_ne, lookup_alter_ne.
  - apply map_eq. intros k. destruct (decide (key = k)) as [->|Hne].
    + by rewrite lookup_alter_eq, Hd.
    + by rewrite lookup_alter_ne.
Qed.

Lemma mongo_set_eq now key value ttl id c :
  get_prop (MongoStore.parsed_or_empty value) "id" = Ok id ->
  MongoStore.set now key value ttl c =
    (Ok tt, <[key := {| _id := key; data := value; userId := id;
                        expiresAt := now + ttl * 1000 |}]> c).
Proof.
  intros Hid. unfold MongoStore.set, bind, lift.
  rewrite Hid; simpl. unfold collection_updateOne; simpl.
  destruct (c !! key) as [d|] eqn:Hd; simpl; by rewrite ?String.eqb_refl.
Qed.

Lemma mongo_set_throws now key value ttl e c :
  get_prop (MongoStore.parsed_or_empty value) "id" = Throw e ->
  MongoStore.set now key value ttl c = (Throw e, c).
Proof.
  intros Hid. unfold MongoStore.set, bind, lift.
  by rewrite Hid.
Qed.

Lemma mongo_deleteByUser_eq u c :
  MongoStore.deleteByUser u c =
    (Ok tt, filter (fun entry => matches (ByUserId u) entry = false) c).
Proof. done. Qed.

Lemma mongo_findAllByUser_eq u c :
  MongoStore.findAllByUser u c =
    (Ok (List.map data (List.map snd (List.filter (matches (ByUserId u)) (map_to_list c)))), c).
Proof. done. Qed.

(** Every listed value is the payload of a stored document of that user. *)
Lemma mongo_findAllByUser_sound u c l x :
  fst (MongoStore.findAllByUser u c) = Ok l -> x ∈ l ->
  exists key d, c !! key = Some d /\ owned_by u d /\ data d = x.
Proof.
  rewrite mongo_findAllByUser_eq; simpl. intros [= <-] Hx.
  apply list_elem_of_In, in_map_iff in Hx as (d & <- & Hd).
  apply in_map_iff in Hd as ([key d'] & <- & Hd).
  apply filter_In in Hd as [Hd Hm].
  exists key, d'. split; [|done].
  by apply elem_of_map_to_list, list_elem_of_In.
Qed.

(** After [deleteByUser(u)] no document of [u] is left. *)
Lemma mongo_deleteByUser_lookup u c key :
  snd (MongoStore.deleteByUser u c) !! key =
    match c !! key with
    | Some d => if userId_matches (userId d) u then None else Some d
    | None => None
    end.
Proof.
  rewrite mongo_deleteByUser_eq; simpl. rewrite map_lookup_filter.
  destruct (c !! key) as [d|]; simpl; [|done].
  destruct (userId_matches (userId d) u) eqn:Hm.
  - by rewrite option_guard_False.
  - by rewrite option_guard_True.
Qed.

Lemma mongo_deleteByUser_complete u c :
  let c' := snd (MongoStore.deleteByUser u c) in
  fst (MongoStore.findAllByUser u c') = Ok []
  /\ forall now key d, c !! key = Some d -> owned_by u d ->
       MongoStore.get now key c' = (Ok None, c').
Proof.
  intros c'. split.
  - rewrite mongo_findAllByUser_eq; simpl. f_equal.
    destruct (List.filter _ _) as [|[key d] l] eqn:Hf; [done|].
    assert (In (key, d) (List.filter (matches (ByUserId u)) (map_to_list c'))) as Hin
      by (rewrite Hf; by left).
    apply filter_In in Hin as [Hin Hm].
    apply list_elem_of_In, elem_of_map_to_list in Hin.
    unfold c' in Hin. rewrite mongo_deleteByUser_lookup in Hin.
    destruct (c !! key) as [d'|]; [|done]. simpl in Hm.
    destruct (userId_matches (userId d') u) eqn:Hm'; [done|].
    injection Hin as ->. congruence.
  - intros now key d Hd Hu. apply mongo_get_absent.
    unfold c'. rewrite mongo_deleteByUser_lookup, Hd. unfold owned_by in Hu. by rewrite Hu.
Qed.
End Facts.
End MongoStoreFacts.

(** ** PostgresStore on the reference database *)

Module PostgresStoreFacts.
Import Pg.

Section Facts.
Context `{JSON} `{Codec}.
Variable this : PostgresStore.t.
Implicit Types (db : gmap string (gmap string Row)) (rows : gmap string Row)
  (key : string) (r : Row).

Lemma pg_delete_eq key db rows :
  db !! PostgresStore.table this = Some rows ->
  PostgresStore.delete this key db =
    (Ok tt, <[PostgresStore.table this := base.delete key rows]> db).
Proof.
  intros Hrows. unfold PostgresStore.delete, bind, query; simpl. by rewrite Hrows.
Qed.

Lemma pg_get_expired now key r db rows :
  db !! PostgresStore.table this = Some rows ->
  rows !! key = Some r -> expired_at r < now ->
  PostgresStore.get this now key db =
    (Ok None, <[PostgresStore.table this := base.delete key rows]> db).
Proof.
  intros Hrows Hr Hlt. unfold PostgresStore.get, bind.
  unfold query at 1; simpl. rewrite Hrows, Hr; simpl.
  destruct (Z.gtb_spec now (expired_at r)); [|lia].
  by rewrite (pg_delete_eq _ _ rows).
Qed.

Lemma pg_get_live now key r db rows :
  db !! PostgresStore.table this = Some rows ->
  rows !! key = Some r -> now <= expired_at r ->
  PostgresStore.get this now key db = (Ok (Some (JSON_stringify (sess r))), db).
Proof.
  intros Hrows Hr Hle. unfold PostgresStore.get, bind.
  unfold query at 1; simpl. rewrite Hrows, Hr; simpl.
  by destruct (Z.gtb_spec now (expired_at r)); [lia|].
Qed.

Lemma pg_get_absent now key db rows :
  db !! PostgresStore.table this = Some rows ->
  rows !! key = None ->
  PostgresStore.get this now key db = (Ok None, db).
Proof.
  intros Hrows Hr. unfold PostgresStore.get, bind.
  unfold query at 1; simpl. by rewrite Hrows, Hr.
Qed.

Lemma pg_touch_eq now key ttl db rows :
  db !! PostgresStore.table this = Some rows ->
  PostgresStore.touch this now key ttl db =
    (Ok tt, <[PostgresStore.table this := alter (set_expired_at (now + ttl * 1000)) key rows]> db).
Proof.
  intros Hrows. unfold PostgresStore.touch, bind, query; simpl. by rewrite Hrows.
Qed.

(** When [set] completes, the text parsed, its [id] reached the TEXT
    column and the parsed value the JSONB column. *)
Lemma pg_set_Ok now key value ttl db rows s' :
  db !! PostgresStore.table this = Some rows ->
  PostgresStore.set this now key value ttl db = (Ok tt, s') ->
  exists parsed id stored owner,
    JSON_parse value = Some parsed /\ get_prop parsed "id" = Ok id /\
    to_jsonb parsed = Some stored /\ to_text id = Some owner /\
    s' = <[PostgresStore.table this :=
             <[key := {| sid := key; sess := stored; user_id := owner;
                         expired_at := now + ttl * 1000 |}]> rows]> db.
Proof.
  intros Hrows. unfold PostgresStore.set, bind, lift, parse_or_throw.
  destruct (JSON_parse value) as [parsed|]; [|done].
  destruct (get_prop parsed "id") as [id|] eqn:Hid; [|done].
  unfold query; simpl. rewrite Hrows.
  destruct (to_jsonb parsed) as [stored|] eqn:Hs, (to_text id) as [owner|] eqn:Ho; try done.
  intros [= <-]. by exists parsed, id, stored, owner.
Qed.

Lemma pg_deleteByUser_eq u db rows :
  db !! PostgresStore.table this = Some rows ->
  PostgresStore.deleteByUser this u db =
    (Ok tt, <[PostgresStore.table this :=
                filter (fun entry => String.eqb (user_id (snd entry)) u = false) rows]> db).
Proof.
  intros Hrows. unfold PostgresStore.deleteByUser, bind, query; simpl. by rewrite Hrows.
Qed.

Lemma pg_findAllByUser_eq now u db rows :
  db !! PostgresStore.table this = Some rows ->
  PostgresStore.findAllByUser this now u db =
    (Ok (List.map (fun row => JSON_stringify (sess row))
           (List.filter (fun r => String.eqb (user_id r) u && (expired_at r >? now))
              (map_to_list rows).*2)), db).
Proof.
  intros Hrows. unfold PostgresStore.findAllByUser, bind, query; simpl. by rewrite Hrows.
Qed.

(** Every listed value comes from a stored row of that user whose expiry
    lies in the future. *)
Lemma pg_findAllByUser_sound now u db rows l x :
  db !! PostgresStore.table this = Some rows ->
  fst (PostgresStore.findAllByUser this now u db) = Ok l -> x ∈ l ->
  exists key r, rows !! key = Some r /\ user_id r = u /\ now < expired_at r
                /\ JSON_stringify (sess r) = x.
Proof.
  intros Hrows. rewrite (pg_findAllByUser_eq _ _ _ rows) by done; simpl.
  intros [= <-] Hx.
  apply list_elem_of_In, in_map_iff in Hx as (r & <- & Hr).
  apply filter_In in Hr as [Hr Hm].
  apply list_elem_of_In, list_elem_of_fmap in Hr as ([key r'] & -> & Hr).
  apply elem_of_map_to_list in Hr. simpl in Hm.
  apply andb_prop in Hm as [Hu He].
  exists key, r'. repeat split; try done.
  - by apply String.eqb_eq.
  - by apply Z.gtb_lt in He.
Qed.

Lemma pg_deleteByUser_lookup u rows key :
  filter (fun entry : string * Row => String.eqb (user_id (snd entry)) u = false) rows !! key =
    match rows !! key with
    | Some r => if String.eqb (user_id r) u then None else Some r
    | None => None
    end.
Proof.
  rewrite map_lookup_filter.
  destruct (rows !! key) as [r|]; simpl; [|done].
  destruct (String.eqb (user_id r) u) eqn:Hm.
  - by rewrite option_guard_False.
  - by rewrite option_guard_True.
Qed.

(** After [deleteByUser(u)] no row of [u] is left. *)
Lemma pg_deleteByUser_complete u db rows :
  db !! PostgresStore.table this = Some rows ->
  let db' := snd (PostgresStore.deleteByUser this u db) in
  (forall now, fst (PostgresStore.findAllByUser this now u db') = Ok [])
  /\ forall now key r, rows !! key = Some r -> user_id r = u ->
       PostgresStore.get this now key db' = (Ok None, db').
Proof.
  intros Hrows db'. unfold db'. rewrite (pg_deleteByUser_eq _ _ rows) by done; simpl.
  split.
  - intros now. erewrite pg_findAllByUser_eq by apply lookup_insert_eq. simpl. f_equal.
    destruct (List.filter _ _) as [|r l] eqn:Hf; [done|].
    assert (In r (r :: l)) as Hin by by left.
    rewrite <- Hf in Hin. apply filter_In in Hin as [Hin Hm].
    apply list_elem_of_In, list_elem_of_fmap in Hin as ([key r'] & -> & Hin).
    apply elem_of_map_to_list in Hin. rewrite pg_deleteByUser_lookup in Hin.
    simpl in Hm. apply andb_prop in Hm as [Hm _].
    destruct (rows !! key) as [r0|]; [|done].
    destruct (String.eqb (user_id r0) u) eqn:Hm'; [done|]. injection Hin as ->. congruence.
  - intros now key r Hr Hu. eapply pg_get_absent; [apply lookup_insert_eq|].
    rewrite pg_deleteByUser_lookup, Hr. subst u. by rewrite String.eqb_refl.
Qed.
End Facts.
End PostgresStoreFacts.

(** ** The gatekeeper *)

Module GatekeeperFacts.
Import Gatekeeper.

Lemma gatekeeper_presents authorize req tok :
  presents req tok ->
  gatekeeper authorize req =
    match authorize tok with
    | Throw _ => [Status 500; SendJson (error_body "Authentication failed")]
    | Ok result =>
        if negb (valid result) then
          [Status 401; SendJson (error_body "Invalid or expired session")]
        else
          [AttachUser (user result); AttachSessionId (sessionId result)]
          ++ (if truthy (token result)
              then [SetHeader "X-Ace-Token" (default "" (token result));
                    SetHeader "Access-Control-Expose-Headers" "X-Ace-Token"]
              else [])
          ++ [Next]
    end.
Proof.
  intros (header & Hh & Hscheme & Htok & Hne). unfold gatekeeper. rewrite Hh.
  destruct header as [|c header]; [done|].
  cbn [truthy negb default from_option id]. rewrite Hscheme, Htok.
  rewrite bool_decide_eq_true_2 by done.
  destruct tok; [done|]. reflexivity.
Qed.

End GatekeeperFacts.

(** ** Records that survive a sequence of calls *)

Module Survival.

(** Unfolds one call of [step] to the method of the store [inst]. *)
Ltac step_call inst :=
  unfold step;
  cbn [set get touch delete findAllByUser deleteByUser inst].

Section Mongo.
Context `{JSON}.
Import Mongo MongoStoreFacts.
Implicit Types (c : gmap string Doc).


End Mongo.

Section Postgres.
Context `{JSON} `{Pg.Codec}.
Variable this : PostgresStore.t.
Import Pg PostgresStoreFacts.
Implicit Types (db : gmap string (gmap string Row)).

Lemma row_at_insert db rows key :
  row_at this (<[PostgresStore.table this := rows]> db) key = rows !! key.
Proof. unfold row_at. by rewrite lookup_insert_eq. Qed.


End Postgres.

Section Memory.
Context `{JSON}.
Import MemoryStore MemoryStoreFacts JsMapFacts MemoryEvents.


Lemma memory_findAllByUser_state u s : snd (MemoryStore.findAllByUser u s) = s.
Proof. done. Qed.


End Memory.
End Survival.

(** * The claims *)

Section GatekeeperClaims.
Import Gatekeeper GatekeeperFacts.





End GatekeeperClaims.

Section StoreClaims.
Context `{JSON} `{Pg.Codec}.

(** C3: in each store, a [get] made strictly after the stored expiry of a
    record that is still physically present returns none and removes the
    record (MemoryStore also drops its timer). *)
Theorem C3_get_expired_is_absent_and_reclaimed :
  (forall now key item (s : MemoryStore.t),
     JsMap.get key (MemoryStore.cache s) = Some item ->
     MemoryStore.expiresAt item < now ->
     exists s', MemoryStore.get now key s = (Ok None, s') /\
                MemoryStore.cache s' = JsMap.delete key (MemoryStore.cache s) /\
                JsMap.get key (MemoryStore.cache s') = None /\
                MemoryStore.intervals s' !! key = None)
  /\
  (forall now key d (c : gmap string Mongo.Doc),
     c !! key = Some d -> Mongo.expiresAt d < now ->
     exists c', MongoStore.get now key c = (Ok None, c') /\
                c' = base.delete key c /\ c' !! key = None)
  /\
  (forall this now key r (db : gmap string (gmap string Pg.Row)) rows,
     db !! PostgresStore.table this = Some rows ->
     rows !! key = Some r -> Pg.expired_at r < now ->
     exists db', PostgresStore.get this now key db = (Ok None, db') /\
                 db' = <[PostgresStore.table this := base.delete key rows]> db /\
                 forall rows', db' !! PostgresStore.table this = Some rows' -> rows' !! key = None).
Proof.
  repeat split.
  - intros now key item s Hitem Hlt. eexists. split.
    + by apply MemoryStoreFacts.memory_get_expired with item.
    + simpl. split; [done|]. split; [apply JsMapFacts.get_delete_eq|apply lookup_delete_eq].
  - intros now key d c Hd Hlt. eexists. split.
    + by apply MongoStoreFacts.mongo_get_expired with d.
    + split; [done|apply lookup_delete_eq].
  - intros this now key r db rows Hrows Hr Hlt. eexists. split.
    + by apply PostgresStoreFacts.pg_get_expired with r.
    + split; [done|]. intros rows'. rewrite lookup_insert_eq. intros [= <-].
      apply lookup_delete_eq.
Qed.

(** C9: in each store the expiry boundary is inclusive.  A present record
    read at a time not later than its stored expiry (at the expiry
    instant itself, in particular) is returned and the store is left as it
    was; [get] reports a present record absent only when the time is
    strictly later than the expiry. *)
Theorem C9_expiry_boundary_inclusive :
  (forall now key item (s : MemoryStore.t),
     JsMap.get key (MemoryStore.cache s) = Some item ->
     (now <= MemoryStore.expiresAt item ->
      MemoryStore.get now key s = (Ok (Some (MemoryStore.value item)), s)) /\
     (fst (MemoryStore.get now key s) = Ok None -> MemoryStore.expiresAt item < now))
  /\
  (forall now key d (c : gmap string Mongo.Doc),
     c !! key = Some d ->
     (now <= Mongo.expiresAt d -> MongoStore.get now key c = (Ok (Some (Mongo.data d)), c)) /\
     (fst (MongoStore.get now key c) = Ok None -> Mongo.expiresAt d < now))
  /\
  (forall this now key r (db : gmap string (gmap string Pg.Row)) rows,
     db !! PostgresStore.table this = Some rows ->
     rows !! key = Some r ->
     (now <= Pg.expired_at r ->
      PostgresStore.get this now key db = (Ok (Some (JSON_stringify (Pg.sess r))), db)) /\
     (fst (PostgresStore.get this now key db) = Ok None -> Pg.expired_at r < now)).
Proof.
  split; [|split].
  - intros now key item s Hitem. split.
    + by apply MemoryStoreFacts.memory_get_live.
    + intros Hnone. destruct (Z.le_gt_cases now (MemoryStore.expiresAt item)) as [Hle|Hgt]; [|done].
      by rewrite (MemoryStoreFacts.memory_get_live _ _ _ _ Hitem Hle) in Hnone.
  - intros now key d c Hd. split.
    + by apply MongoStoreFacts.mongo_get_live.
    + intros Hnone. destruct (Z.le_gt_cases now (Mongo.expiresAt d)) as [Hle|Hgt]; [|done].
      by rewrite (MongoStoreFacts.mongo_get_live _ _ _ _ Hd Hle) in Hnone.
  - intros this now key r db rows Hrows Hr. split.
    + by apply PostgresStoreFacts.pg_get_live with rows.
    + intros Hnone. destruct (Z.le_gt_cases now (Pg.expired_at r)) as [Hle|Hgt]; [|done].
      by rewrite (PostgresStoreFacts.pg_get_live _ _ _ _ _ _ Hrows Hr Hle) in Hnone.
Qed.

(** C6: in each store [touch] rewrites nothing but the expiry of the
    record at [key] (MemoryStore re-arms that key's timer with it): the
    payload and the owner stay, every other key's record stays, no record
    appears, and with no record at [key] the store is left exactly as it
    was. *)
Theorem C6_touch_changes_only_the_expiry :
  (forall now key ttl (s : MemoryStore.t),
     exists s', MemoryStore.touch now key ttl s = (Ok tt, s') /\
       (JsMap.get key (MemoryStore.cache s) = None -> s' = s) /\
       (forall item, JsMap.get key (MemoryStore.cache s) = Some item ->
          JsMap.get key (MemoryStore.cache s') =
            Some {| MemoryStore.value := MemoryStore.value item;
                    MemoryStore.expiresAt := now + ttl * 1000 |}) /\
       (forall key', key' <> key ->
          JsMap.get key' (MemoryStore.cache s') = JsMap.get key' (MemoryStore.cache s) /\
          MemoryStore.intervals s' !! key' = MemoryStore.intervals s !! key') /\
       JsMap.keys (MemoryStore.cache s') = JsMap.keys (MemoryStore.cache s))
  /\
  (forall now key ttl (c : gmap string Mongo.Doc),
     exists c', MongoStore.touch now key ttl c = (Ok tt, c') /\
       (c !! key = None -> c' = c) /\
       (forall d, c !! key = Some d ->
          c' !! key = Some {| Mongo._id := Mongo._id d; Mongo.data := Mongo.data d;
                              Mongo.userId := Mongo.userId d;
                              Mongo.expiresAt := now + ttl * 1000 |}) /\
       (forall key', key' <> key -> c' !! key' = c !! key'))
  /\
  (forall this now key ttl (db : gmap string (gmap string Pg.Row)) rows,
     db !! PostgresStore.table this = Some rows ->
     exists rows', PostgresStore.touch this now key ttl db
                     = (Ok tt, <[PostgresStore.table this := rows']> db) /\
       (rows !! key = None -> <[PostgresStore.table this := rows']> db = db) /\
       (forall r, rows !! key = Some r ->
          rows' !! key = Some {| Pg.sid := Pg.sid r; Pg.sess := Pg.sess r;
                                 Pg.user_id := Pg.user_id r;
                                 Pg.expired_at := now + ttl * 1000 |}) /\
       (forall key', key' <> key -> rows' !! key' = rows !! key')).
Proof.
  split; [|split].
  - intros now key ttl s.
    destruct (JsMap.get key (MemoryStore.cache s)) as [item|] eqn:Hitem.
    + eexists. split; [by apply MemoryStoreFacts.memory_touch_present|]. simpl.
      split; [done|]. split; [|split].
      * intros ? [= <-]. apply JsMapFacts.get_set_eq.
      * intros key' Hne. split.
        -- by apply JsMapFacts.get_set_ne.
        -- by apply lookup_insert_ne.
      * apply JsMapFacts.keys_set_present. by rewrite Hitem.
    + exists s. split; [by apply MemoryStoreFacts.memory_touch_absent|]. by repeat split.
  - intros now key ttl c. eexists. split; [apply MongoStoreFacts.mongo_touch_eq|].
    split; [|split].
    + intros Hd. apply map_eq. intros k. destruct (decide (key = k)) as [->|Hne].
      * by rewrite lookup_alter_eq, Hd.
      * by rewrite lookup_alter_ne.
    + intros d Hd. by rewrite lookup_alter_eq, Hd.
    + intros key' Hne. by rewrite lookup_alter_ne.
  - intros this now key ttl db rows Hrows. eexists.
    split; [by apply PostgresStoreFacts.pg_touch_eq|]. split; [|split].
    + intros Hr. apply insert_id. rewrite Hrows. f_equal.
      apply map_eq. intros k. destruct (decide (key = k)) as [->|Hne].
      * by rewrite lookup_alter_eq, Hr.
      * by rewrite lookup_alter_ne.
    + intros r Hr. by rewrite lookup_alter_eq, Hr.
    + intros key' Hne. by rewrite lookup_alter_ne.
Qed.
End StoreClaims.

Section PostgresStoreConstruction.
Context `{JSON} `{Pg.Codec}.
Import PostgresStore.

Lemma all_chars_spec p s :
  all_chars p s = true <-> forall c, In c (list_ascii_of_string s) -> p c = true.
Proof.
  induction s as [|a s IH]; simpl.
  - split; [by intros _ c []|done].
  - rewrite andb_true_iff, IH. split.
    + intros [Ha Hs] c [<-|Hc]; auto.
    + intros Hall. split; [apply Hall; by left|]. intros c Hc. apply Hall. by right.
Qed.

Lemma valid_table_name_spec name :
  valid_table_name name = true <->
  name <> "" /\ forall c, In c (list_ascii_of_string name) -> is_name_char c = true.
Proof.
  unfold valid_table_name. destruct name as [|a name].
  - split; [done|]. by intros [? _].
  - rewrite all_chars_spec. split; [by intros ?|by intros [_ ?]].
Qed.

(** The characters the pattern admits are the 52 ASCII letters and the
    underscore. *)
Lemma is_name_char_spec c :
  is_name_char c = true <->
  (65 <= nat_of_ascii c <= 90)%nat \/ (97 <= nat_of_ascii c <= 122)%nat \/ c = "_"%char.
Proof.
  unfold is_name_char.
  rewrite !orb_true_iff, !andb_true_iff, !Nat.leb_le, Nat.eqb_eq.
  split.
  - intros [[?|?]|Hu]; [lia|lia|]. right; right.
    rewrite <- (ascii_nat_embedding c), Hu. reflexivity.
  - intros [?|[?| ->]]; [left; left; lia|left; right; lia|by right].
Qed.

Lemma step_never_invalid_table_name this now op (db : gmap string (gmap string Pg.Row)) :
  fst (step (store := PostgresStore_IStore this) now op db) <> Throw (Error "Invalid table name").
Proof.
  destruct op as [key value ttl|key|key ttl|key|u|u]; simpl.
  - unfold PostgresStore.set, bind, lift, parse_or_throw.
    destruct (JSON_parse value) as [parsed|]; [|done].
    destruct (get_prop parsed "id") as [id|e] eqn:Hid.
    + unfold Pg.query; simpl. destruct (db !! table this); [|done].
      by destruct (Pg.to_jsonb parsed), (Pg.to_text id).
    + destruct parsed; simpl in Hid; by simplify_eq.
  - unfold PostgresStore.get, bind. unfold Pg.query at 1; simpl.
    destruct (db !! table this) as [rows|] eqn:Hrows; [|done]. simpl.
    destruct (rows !! key) as [r|]; simpl; [|done].
    destruct (now >? Pg.expired_at r); [|done].
    by rewrite (PostgresStoreFacts.pg_delete_eq _ _ _ rows).
  - unfold PostgresStore.touch, bind, Pg.query; simpl. by destruct (db !! table this).
  - unfold PostgresStore.delete, bind, Pg.query; simpl. by destruct (db !! table this).
  - unfold PostgresStore.findAllByUser, bind, Pg.query; simpl. by destruct (db !! table this).
  - unfold PostgresStore.deleteByUser, bind, Pg.query; simpl. by destruct (db !! table this).
Qed.

(** C8: the constructor throws for every table name that holds a
    character other than an ASCII letter or the underscore; it succeeds,
    keeping the name, for every name the pattern admits (one or more such
    characters; the default name is one); and no call of set, get, touch,
    delete, findAllByUser or deleteByUser raises the constructor's error,
    whatever table name the store holds. *)
Theorem C8_table_name_is_checked_at_construction_only :
  (forall name c,
     In c (list_ascii_of_string name) -> is_name_char c = false ->
     constructor (Some name) = Throw (Error "Invalid table name"))
  /\
  (forall name,
     name <> "" ->
     (forall c, In c (list_ascii_of_string name) -> is_name_char c = true) ->
     constructor (Some name) = Ok {| table := name |})
  /\
  constructor None = Ok {| table := "auth_sessions" |}
  /\
  (forall this now op (db : gmap string (gmap string Pg.Row)),
     fst (step (store := PostgresStore_IStore this) now op db)
       <> Throw (Error "Invalid table name")).
Proof.
  split; [|split; [|split]].
  - intros name c Hc Hbad. unfold constructor. simpl.
    destruct (valid_table_name name) eqn:Hv; [|done].
    apply valid_table_name_spec in Hv as [_ Hall].
    rewrite (Hall c Hc) in Hbad. discriminate.
  - intros name Hne Hall. unfold constructor. simpl.
    by rewrite (proj2 (valid_table_name_spec name) (conj Hne Hall)).
  - reflexivity.
  - apply step_never_invalid_table_name.
Qed.
End PostgresStoreConstruction.

Section GetAfterSet.
Context `{JSON} `{Pg.Codec}.
Import Survival.

End GetAfterSet.

Section MongoStoreCopies.
Context `{JSON} {M : Type} `{Mongo.MongoModel M}.
Import Mongo.

Lemma copies_agree_on_a_call now op (w : M * list Call) :
  parses op -> find_returns_arrays M ->
  step (store := old_copy) now op w = step (store := current) now op w.
Proof.
  intros Hp Hfind. destruct op as [key value ttl|key|key ttl|key|u|u]; try reflexivity.
  - destruct Hp as [parsed Hp]. unfold step; simpl.
    unfold MongoStoreOld.set, MongoStore.set, MongoStore.parsed_or_empty, bind, lift,
      parse_or_throw.
    by rewrite Hp.
  - unfold step; simpl.
    unfold MongoStoreOld.findAllByUser, MongoStore.findAllByUser, bind; simpl.
    unfold logged. destruct (find (ByUserId u) w.1) as [[r|e] m'] eqn:Hf; [|done].
    by destruct (Hfind _ _ _ _ Hf) as [docs ->].
Qed.

(** C10: over every model, for every sequence of calls in which each
    value passed to [set] parses as JSON, and [find] returning arrays, the
    older MongoStore and the current one return the same results, leave
    the model in the same state and issue the same model calls. *)
Theorem C10_MongoStore_copies_agree (calls : list (Z * Op string)) (w : M * list Call) :
  Forall (fun call => parses (snd call)) calls ->
  find_returns_arrays M ->
  run (store := old_copy) calls w = run (store := current) calls w.
Proof.
  intros Hp Hfind. revert w. induction calls as [|[now op] calls IH]; intros w; [done|].
  apply Forall_cons in Hp as [Hop Hp]. cbn [run].
  rewrite (copies_agree_on_a_call now op w Hop Hfind).
  destruct (step (store := current) now op w) as [r w'].
  by rewrite (IH Hp w').
Qed.
End MongoStoreCopies.

(** * Worked examples *)

Module Examples.
Import Samples SampleStates.
#[local] Existing Instance JsonText_JSON.
#[local] Existing Instance NodePg.codec.

(** C1 fails on MemoryStore, whose [deleteByUser] has an empty body: after
    [set("s1", '{"id":"u1"}', 3600)] and [deleteByUser("u1")] the session
    of u1 is still listed and still returned by [get]. *)
Lemma C1_MemoryStore_deleteByUser_removes_nothing :
  let s1 := snd (MemoryStore.set 0 "s1" (JString session_u1) 3600 MemoryStore.new) in
  let s2 := snd (MemoryStore.deleteByUser "u1" s1) in
  s2 = s1 /\
  fst (MemoryStore.findAllByUser "u1" s2) = Ok [session_u1] /\
  fst (MemoryStore.get 1 "s1" s2) = Ok (Some (JString session_u1)).
Proof. repeat split. Qed.

(** The same calls on the two other stores leave nothing of u1. *)
Lemma deleteByUser_on_the_other_stores :
  let c := snd (MongoStore.deleteByUser "u1"
                  (snd (MongoStore.set 0 "s1" session_u1 3600 empty_collection))) in
  let db := snd (PostgresStore.deleteByUser auth_sessions "u1"
                   (snd (PostgresStore.set auth_sessions 0 "s1" session_u1 3600 empty_database))) in
  fst (MongoStore.findAllByUser "u1" c) = Ok [] /\
  fst (MongoStore.get 1 "s1" c) = Ok None /\
  fst (PostgresStore.findAllByUser auth_sessions 1 "u1" db) = Ok [] /\
  fst (PostgresStore.get auth_sessions 1 "s1" db) = Ok None.
Proof. repeat split; by vm_compute. Qed.

(** C2 fails on MongoStore and MemoryStore, whose [findAllByUser] does not
    look at the expiry: at time 5000 the record that expired at 1000 (and
    that [get] reports absent) is still listed.  PostgresStore, whose
    query filters on the expiry, does not list it. *)
Lemma C2_findAllByUser_lists_expired_records :
  Mongo.expiresAt <$> collection_s1 !! "s1" = Some 1000 /\
  fst (MongoStore.get 5000 "s1" collection_s1) = Ok None /\
  fst (MongoStore.findAllByUser "u1" collection_s1) = Ok [session_u1] /\
  MemoryStore.expiresAt <$> JsMap.get "s1" (MemoryStore.cache memory_s1) = Some 1000 /\
  fst (MemoryStore.get 5000 "s1" memory_s1) = Ok None /\
  fst (MemoryStore.findAllByUser "u1" memory_s1) = Ok [session_u1] /\
  fst (PostgresStore.findAllByUser auth_sessions 5000 "u1" database_s1) = Ok [].
Proof. repeat split; by vm_compute. Qed.


(** A ttl beyond what a timer can hold: the timer of a 30-day session is
    due after one millisecond, and once it has fired the session is gone
    long before its expiry. *)
Lemma MemoryStore_long_ttl_timer_is_due_at_once :
  let s := snd (MemoryStore.set 0 "s1" (JString session_u1) 2592000 MemoryStore.new) in
  MemoryStore.intervals s !! "s1" = Some 1 /\
  fst (MemoryStore.get 2 "s1" (snd (MemoryStore.timer_fires 1 "s1" s))) = Ok None.
Proof. repeat split; by vm_compute. Qed.

(** Without the hypotheses of C10 the two MongoStore classes differ: on a
    value that is no JSON the older one throws, the current one stores. *)
Lemma MongoStore_copies_differ_on_invalid_json :
  fst (MongoStoreOld.set 0 "s1" "no json" 60 empty_collection) = Throw SyntaxError /\
  fst (MongoStore.set 0 "s1" "no json" 60 empty_collection) = Ok tt.
Proof. repeat split; by vm_compute. Qed.
End Examples.

(** * Instances of the theorems *)

Module Witnesses.
Import Samples SampleStates.
#[local] Existing Instance JsonText_JSON.
#[local] Existing Instance NodePg.codec.

(** C3 at work: the record of each sample store expired at 1000 and is
    read at 1001. *)
Lemma C3_witness :
  fst (MemoryStore.get 1001 "s1" memory_s1) = Ok None /\
  fst (MongoStore.get 1001 "s1" collection_s1) = Ok None /\
  fst (PostgresStore.get auth_sessions 1001 "s1" database_s1) = Ok None.
Proof.
  destruct (C3_get_expired_is_absent_and_reclaimed)
    as (Hmem & Hmongo & Hpg).
  split; [|split].
  - destruct (Hmem 1001 "s1" item_s1 memory_s1) as (s' & -> & _);
      [reflexivity|by vm_compute|reflexivity].
  - destruct (Hmongo 1001 "s1" doc_s1 collection_s1) as (c' & -> & _);
      [reflexivity|by vm_compute|reflexivity].
  - destruct (Hpg auth_sessions 1001 "s1" row_s1 database_s1 {["s1" := row_s1]})
      as (db' & -> & _); [reflexivity|reflexivity|by vm_compute|reflexivity].
Defined.

(** C9 at work: the same record read at 1000, the expiry instant. *)
Lemma C9_witness :
  fst (MemoryStore.get 1000 "s1" memory_s1) = Ok (Some (JString session_u1)) /\
  fst (MongoStore.get 1000 "s1" collection_s1) = Ok (Some session_u1) /\
  fst (PostgresStore.get auth_sessions 1000 "s1" database_s1) = Ok (Some session_u1).
Proof.
  destruct (C9_expiry_boundary_inclusive)
    as (Hmem & Hmongo & Hpg).
  split; [|split].
  - destruct (Hmem 1000 "s1" item_s1 memory_s1) as [-> _];
      [reflexivity|by vm_compute|reflexivity].
  - destruct (Hmongo 1000 "s1" doc_s1 collection_s1) as [-> _];
      [reflexivity|by vm_compute|reflexivity].
  - destruct (Hpg auth_sessions 1000 "s1" row_s1 database_s1 {["s1" := row_s1]}) as [-> _];
      [reflexivity|reflexivity|by vm_compute|reflexivity].
Defined.

(** C6 at work: a present key in MemoryStore and PostgresStore, an absent
    one in MongoStore. *)
Lemma C6_witness :
  (exists s', MemoryStore.touch 500 "s1" 60 memory_s1 = (Ok tt, s') /\
     JsMap.get "s1" (MemoryStore.cache s') =
       Some {| MemoryStore.value := JString session_u1; MemoryStore.expiresAt := 60500 |}) /\
  (exists c', MongoStore.touch 500 "absent" 60 collection_s1 = (Ok tt, c') /\ c' = collection_s1) /\
  (exists rows', PostgresStore.touch auth_sessions 500 "s1" 60 database_s1
                   = (Ok tt, <["auth_sessions" := rows']> database_s1) /\
     Pg.sess <$> rows' !! "s1" = Some (JObject [("id", JString "u1")])).
Proof.
  destruct (C6_touch_changes_only_the_expiry)
    as (Hmem & Hmongo & Hpg).
  split; [|split].
  - destruct (Hmem 500 "s1" 60 memory_s1) as (s' & Ht & _ & Hitem & _).
    exists s'. split; [done|]. by apply (Hitem item_s1).
  - destruct (Hmongo 500 "absent" 60 collection_s1) as (c' & Ht & Habs & _).
    exists c'. split; [done|]. by apply Habs.
  - destruct (Hpg auth_sessions 500 "s1" 60 database_s1 {["s1" := row_s1]})
      as (rows' & Ht & _ & Hrow & _); [reflexivity|].
    exists rows'. split; [done|]. by rewrite (Hrow row_s1).
Defined.

(** C8 at work: an injection attempt and an admitted name. *)
Lemma C8_witness :
  PostgresStore.constructor (Some "sessions; DROP TABLE users")
    = Throw (Error "Invalid table name") /\
  PostgresStore.constructor (Some "my_sessions") = Ok {| PostgresStore.table := "my_sessions" |}.
Proof.
  destruct (C8_table_name_is_checked_at_construction_only)
    as (Hbad & Hgood & _).
  split.
  - apply (Hbad _ ";"%char); [|reflexivity]. simpl. tauto.
  - apply Hgood; [discriminate|].
    intros c Hc. simpl in Hc.
    repeat (destruct Hc as [<-|Hc]; [reflexivity|]). destruct Hc.
Defined.


(** C10 at work: six calls on the reference collection. *)
Lemma C10_witness :
  run (store := old_copy (M := gmap string Mongo.Doc)) calls_u1 (empty_collection, [])
    = run (store := current (M := gmap string Mongo.Doc)) calls_u1 (empty_collection, []).
Proof.
  apply C10_MongoStore_copies_agree.
  - repeat constructor. simpl. by eexists.
  - intros q m r m' [= <- <-]. by eexists.
Defined.
End Witnesses.

(** * Further properties *)

(** ** More on the gatekeeper *)

Module GatekeeperMore.
Import Gatekeeper GatekeeperFacts.

Lemma append_empty_r (s : string) : s +:+ "" = s.
Proof.
  induction s as [|c s IH]; [done|].
  change (String c (s +:+ "") = String c s). by rewrite IH.
Qed.

Lemma split_cons_inv sep s : exists h t, split sep s = h :: t.
Proof.
  destruct s as [|c s]; simpl; [by eexists _, _|].
  destruct (Ascii.eqb c sep); [by eexists _, _|].
  destruct (split sep s); by eexists _, _.
Qed.

Lemma join_cons sep x y l :
  JsonText.join sep (x :: y :: l) = x +:+ sep +:+ JsonText.join sep (y :: l).
Proof. reflexivity. Qed.

(** [s.split(sep).join(sep)] gives [s] back. *)
Lemma split_join sep s : JsonText.join (String sep "") (split sep s) = s.
Proof.
  induction s as [|c s IH]; [done|]. cbn [split].
  destruct (split_cons_inv sep s) as (h & t & Hs).
  destruct (Ascii.eqb_spec c sep) as [->|Hne].
  - rewrite Hs, join_cons, <- Hs, IH. reflexivity.
  - rewrite Hs in *. destruct t as [|h' t].
    + simpl in *. by rewrite IH.
    + rewrite join_cons. rewrite join_cons in IH. rewrite <- IH at 1. reflexivity.
Qed.

(** No part of a split holds the separator. *)
Lemma split_parts_free sep s part :
  part ∈ split sep s -> ~ In sep (list_ascii_of_string part).
Proof.
  revert part. induction s as [|c s IH]; intros part; simpl.
  - intros ->%list_elem_of_singleton. by intros [].
  - destruct (Ascii.eqb_spec c sep) as [->|Hne].
    + intros [->|Hin]%elem_of_cons; [by intros []|by apply IH].
    + destruct (split_cons_inv sep s) as (h & t & Hs). rewrite Hs in *.
      intros [->|Hin]%elem_of_cons.
      * simpl. intros [?|Hh]; [done|]. apply (IH h); [apply list_elem_of_here|done].
      * apply IH. by apply list_elem_of_further.
Qed.

Lemma split_prefix sep a b :
  ~ In sep (list_ascii_of_string a) ->
  split sep (a +:+ String sep b) = a :: split sep b.
Proof.
  induction a as [|c a IH]; simpl; intros Hfree.
  - by rewrite Ascii.eqb_refl.
  - destruct (Ascii.eqb_spec c sep) as [->|Hne]; [by destruct Hfree; left|].
    rewrite IH; [done|]. intros Hin. apply Hfree. by right.
Qed.

Lemma split_free sep a :
  ~ In sep (list_ascii_of_string a) -> split sep a = [a].
Proof.
  induction a as [|c a IH]; simpl; intros Hfree; [done|].
  destruct (Ascii.eqb_spec c sep) as [->|Hne]; [by destruct Hfree; left|].
  rewrite IH; [done|]. intros Hin. apply Hfree. by right.
Qed.

(** X1: what it takes to carry a bearer credential.  The middleware hands
    [tok] to [authorize] exactly when the header is [Bearer], one space, and
    the non-empty, space-free [tok], followed by nothing or by a space and
    anything (which is ignored). *)
Theorem bearer_credential_iff req tok :
  presents req tok <->
  tok <> "" /\ ~ In " "%char (list_ascii_of_string tok) /\
  exists rest,
    authorization req = Some ("Bearer " +:+ tok +:+ rest) /\
    (rest = "" \/ exists r, rest = String " " r).
Proof.
  split.
  - intros (header & Hh & Hscheme & Htok & Hne).
    split; [done|]. split.
    { apply (split_parts_free " " header). by apply list_elem_of_lookup_2 in Htok. }
    pose proof (split_join " " header) as Hjoin.
    destruct (split " " header) as [|scheme [|tok' t]] eqn:Hs; try done.
    simpl in Hscheme, Htok. injection Hscheme as ->. injection Htok as ->.
    destruct t as [|x t].
    + exists "". split; [|by left]. rewrite Hh, <- Hjoin. simpl.
      by rewrite append_empty_r.
    + exists (String " " (JsonText.join " " (x :: t))). split; [|by right; eexists].
      rewrite Hh, <- Hjoin. by rewrite !join_cons.
  - intros (Hne & Hfree & rest & Hh & Hrest).
    exists ("Bearer " +:+ tok +:+ rest). split; [done|].
    change ("Bearer " +:+ tok +:+ rest) with ("Bearer" +:+ String " " (tok +:+ rest)).
    rewrite split_prefix by (simpl; intros H; decompose [or] H; done).
    destruct Hrest as [->|[r ->]].
    + rewrite append_empty_r, split_free by done. by repeat split.
    + rewrite split_prefix by done. by repeat split.
Qed.



(** X4: when [authorize] rejects (throws), the request is answered with
    status 500 and the body [{error: 'Authentication failed'}], and is not
    passed on. *)
Theorem gatekeeper_authorize_rejects authorize req tok e :
  presents req tok -> authorize tok = Throw e ->
  gatekeeper authorize req = [Status 500; SendJson (error_body "Authentication failed")].
Proof. intros Hp Ha. by rewrite (gatekeeper_presents _ _ _ Hp), Ha. Qed.

Lemma gatekeeper_authorize_rejects_witness :
  gatekeeper (fun _ => Throw (Error "store unavailable")) Samples.bearer_t1
    = [Status 500; SendJson (error_body "Authentication failed")].
Proof.
  apply (gatekeeper_authorize_rejects _ _ "t1" (Error "store unavailable")); [|done].
  exists "Bearer t1". by repeat split.
Defined.

(** X5: a request without a bearer credential is answered with 401 and one
    of two messages, whatever [authorize] would say: the engine is not
    consulted. *)
Theorem gatekeeper_without_credential req :
  (forall tok, ~ presents req tok) ->
  exists message,
    (message = "Authorization header missing" \/ message = "Invalid authorization format") /\
    forall authorize,
      gatekeeper authorize req = [Status 401; SendJson (error_body message)].
Proof.
  intros Hnone. unfold gatekeeper.
  destruct (authorization req) as [header|] eqn:Hh; [|eauto].
  destruct header as [|c header]; [eauto|].
  cbn [truthy negb default from_option id].
  set (parts := split " " (String c header)).
  destruct (bool_decide (parts !! 0%nat = Some "Bearer")) eqn:Hs; [|eauto].
  apply bool_decide_eq_true in Hs.
  destruct (parts !! 1%nat) as [tok|] eqn:Htok; [|eauto].
  destruct tok as [|c' tok]; [eauto|].
  destruct (Hnone (String c' tok)). exists (String c header). by repeat split.
Qed.

Lemma gatekeeper_without_credential_witness :
  exists message,
    (message = "Authorization header missing" \/ message = "Invalid authorization format") /\
    forall authorize,
      gatekeeper authorize Samples.basic_header = [Status 401; SendJson (error_body message)].
Proof.
  apply gatekeeper_without_credential.
  intros tok (header & [= <-] & Hscheme & _). discriminate Hscheme.
Defined.

(** X6: headers that are answered with 'Invalid authorization format',
    whatever [authorize] would say: a non-empty header without a space; a
    header whose first part is not exactly [Bearer] (the comparison is
    case-sensitive); and [Bearer] followed by two spaces. *)
Theorem malformed_headers authorize :
  (forall header,
     header <> "" -> ~ In " "%char (list_ascii_of_string header) ->
     gatekeeper authorize {| authorization := Some header |}
       = [Status 401; SendJson (error_body "Invalid authorization format")]) /\
  (forall scheme rest,
     scheme <> "Bearer" -> ~ In " "%char (list_ascii_of_string scheme) ->
     gatekeeper authorize {| authorization := Some (scheme +:+ " " +:+ rest) |}
       = [Status 401; SendJson (error_body "Invalid authorization format")]) /\
  (forall rest,
     gatekeeper authorize {| authorization := Some ("Bearer  " +:+ rest) |}
       = [Status 401; SendJson (error_body "Invalid authorization format")]).
Proof.
  split; [|split].
  - intros header Hne Hfree. unfold gatekeeper. cbn [authorization].
    destruct header as [|c header]; [done|].
    cbn [truthy negb default from_option id].
    rewrite split_free by done. cbn [lookup list_lookup].
    by rewrite orb_true_r.
  - intros scheme rest Hscheme Hsfree. unfold gatekeeper. cbn [authorization].
    change (scheme +:+ " " +:+ rest) with (scheme +:+ String " " rest).
    assert (truthy (Some (scheme +:+ String " " rest)) = true) as -> by by destruct scheme.
    cbn [negb default from_option id].
    rewrite split_prefix by done. cbn [lookup list_lookup].
    rewrite bool_decide_eq_false_2; [done|]. by intros [= ->].
  - intros rest. unfold gatekeeper. cbn [authorization].
    change ("Bearer  " +:+ rest) with ("Bearer" +:+ String " " ("" +:+ String " " rest)).
    cbn [truthy String.append negb default from_option id].
    change (String "B" (String "e" (String "a" (String "r" (String "e" (String "r"
             (String " " (String " " rest))))))))
      with ("Bearer" +:+ String " " ("" +:+ String " " rest)).
    rewrite split_prefix by (simpl; intros H; decompose [or] H; done).
    rewrite split_prefix by (by intros []). reflexivity.
Qed.

Lemma malformed_headers_witness :
  gatekeeper Samples.rotate {| authorization := Some "Bearer" |}
    = [Status 401; SendJson (error_body "Invalid authorization format")] /\
  gatekeeper Samples.rotate {| authorization := Some "bearer t1" |}
    = [Status 401; SendJson (error_body "Invalid authorization format")].
Proof.
  destruct (malformed_headers Samples.rotate) as (Hplain & Hscheme & _). split.
  - apply Hplain; [discriminate|]. simpl. intros H; decompose [or] H; done.
  - apply (Hscheme "bearer" "t1"); [discriminate|]. simpl. intros H; decompose [or] H; done.
Defined.
End GatekeeperMore.

(** ** More on MemoryStore *)

Module MemoryStoreMore.
Import MemoryStore MemoryStoreFacts JsMapFacts MemoryListing MemoryEvents.

Lemma get_prop_Throw v name e : get_prop v name = Throw e -> v = JNull /\ e = TypeError.
Proof. destruct v; simpl; by intros [=]. Qed.

Section WithJSON.
Context `{JSON}.

Lemma loop_lists_owned entries u acc :
  (forall entry, entry ∈ entries -> parsed_value (snd entry) <> Some JNull) ->
  findAllByUser_loop entries u acc =
    Ok (acc ++ List.map (fun entry => as_string (value (snd entry)))
                 (List.filter (fun entry => owns u (snd entry)) entries)).
Proof.
  revert acc. induction entries as [|[key item] entries IH]; intros acc Hclean.
  - simpl. by rewrite app_nil_r.
  - assert (forall entry, entry ∈ entries -> parsed_value (snd entry) <> Some JNull) as Hrest.
    { intros entry Hin. apply Hclean. by apply list_elem_of_further. }
    pose proof (Hclean (key, item) (list_elem_of_here _ _)) as Hitem.
    cbn [findAllByUser_loop List.filter snd]. unfold owns.
    fold (parsed_value item).
    destruct (parsed_value item) as [user|] eqn:Hp; [|by apply IH].
    destruct (get_prop user "id") as [id|e] eqn:Hid;
      [|apply get_prop_Throw in Hid as [-> _]; by destruct Hitem].
    destruct (get_prop user "_id") as [id'|e] eqn:Hid';
      [|apply get_prop_Throw in Hid' as [-> _]; by destruct Hitem].
    destruct (strict_eq_string id u); simpl.
    + rewrite IH by done. by rewrite <- app_assoc.
    + destruct (strict_eq_string id' u); simpl.
      * rewrite IH by done. by rewrite <- app_assoc.
      * by apply IH.
Qed.

Lemma loop_poisoned entries u acc entry :
  entry ∈ entries -> parsed_value (snd entry) = Some JNull ->
  findAllByUser_loop entries u acc = Throw TypeError.
Proof.
  intros Hin Hnull. revert acc.
  induction entries as [|[key item] entries IH]; intros acc; [by apply elem_of_nil in Hin|].
  cbn [findAllByUser_loop]. fold (parsed_value item).
  apply elem_of_cons in Hin as [->|Hin].
  - simpl in Hnull. by rewrite Hnull.
  - destruct (parsed_value item) as [user|]; [|by apply IH].
    destruct (get_prop user "id") as [id|e] eqn:Hid;
      [|by apply get_prop_Throw in Hid as [_ ->]].
    destruct (strict_eq_string id u); [by apply IH|].
    destruct (get_prop user "_id") as [id'|e] eqn:Hid';
      [|by apply get_prop_Throw in Hid' as [_ ->]].
    destruct (strict_eq_string id' u); by apply IH.
Qed.

(** X7: as long as no cached value is [null] (or the text [null]),
    [findAllByUser(u)] succeeds, leaves the store as it is, and lists, in
    insertion order, exactly the entries whose value has [id] or [_id]
    equal to [u]; entries whose text is no JSON are skipped. *)
Theorem memory_findAllByUser_lists_the_owned u (s : MemoryStore.t) :
  (forall entry, entry ∈ cache s -> parsed_value (snd entry) <> Some JNull) ->
  MemoryStore.findAllByUser u s =
    (Ok (List.map (fun entry => as_string (value (snd entry)))
           (List.filter (fun entry => owns u (snd entry)) (cache s))), s).
Proof.
  intros Hclean. unfold MemoryStore.findAllByUser. by rewrite loop_lists_owned.
Qed.

(** X8: one cached value that is [null], or whose text parses to [null],
    makes [findAllByUser] throw a TypeError for every user. *)
Theorem memory_findAllByUser_throws_on_null u (s : MemoryStore.t) entry :
  entry ∈ cache s -> parsed_value (snd entry) = Some JNull ->
  MemoryStore.findAllByUser u s = (Throw TypeError, s).
Proof.
  intros Hin Hnull. unfold MemoryStore.findAllByUser.
  by rewrite (loop_poisoned _ _ _ entry).
Qed.

Lemma timers_match_set now key v ttl s :
  timers_match_cache s -> timers_match_cache (snd (MemoryStore.set now key v ttl s)).
Proof.
  intros Hs k. rewrite memory_set_eq. simpl.
  destruct (decide (key = k)) as [->|Hne].
  - rewrite lookup_insert_eq, get_set_eq. by split.
  - rewrite lookup_insert_ne, get_set_ne by done. apply Hs.
Qed.

Lemma timers_match_delete key s :
  timers_match_cache s -> timers_match_cache (snd (MemoryStore.delete key s)).
Proof.
  intros Hs k. rewrite memory_delete_eq. simpl.
  destruct (decide (key = k)) as [->|Hne].
  - rewrite lookup_delete_eq, get_delete_eq. split; by intros [? ?].
  - rewrite lookup_delete_ne, get_delete_ne by done. apply Hs.
Qed.

Lemma timers_match_event e s :
  timers_match_cache s -> timers_match_cache (apply e s).
Proof.
  intros Hs. destruct e as [now op|now k]; cbn [apply].
  - destruct op as [k v ttl|k|k ttl|k|u|u]; Survival.step_call @MemoryStore_IStore.
    + destruct (MemoryStore.set now k v ttl s) as [r s'] eqn:Hset. simpl.
      change s' with (snd (r, s')). rewrite <- Hset. by apply timers_match_set.
    + destruct (JsMap.get k (cache s)) as [item|] eqn:Hitem.
      * destruct (Z.le_gt_cases now (expiresAt item)) as [Hle|Hgt].
        -- by rewrite (memory_get_live _ _ item).
        -- rewrite (memory_get_expired _ _ item) by done.
           pose proof (timers_match_delete k s Hs) as Hd.
           by rewrite memory_delete_eq in Hd.
      * by rewrite memory_get_absent.
    + unfold MemoryStore.touch. destruct (JsMap.get k (cache s)) as [item|]; [|done].
      destruct (MemoryStore.set now k (value item) ttl s) as [r s'] eqn:Hset. simpl.
      change s' with (snd (r, s')). rewrite <- Hset. by apply timers_match_set.
    + destruct (MemoryStore.delete k s) as [r s'] eqn:Hd. simpl.
      change s' with (snd (r, s')). rewrite <- Hd. by apply timers_match_delete.
    + done.
    + done.
  - unfold timer_fires. destruct (intervals s !! k) as [due|]; [|done].
    destruct (due <=? now); [|done]. by apply timers_match_delete.
Qed.

(** X9: timers and records stay paired.  From a store in which every cached
    key has a pending timer and every pending timer a cached key (the new
    store is one), every sequence of calls and timer callbacks leads to such
    a store: no record is left without its cleanup timer, and no timer is
    left behind by [delete], by an overwrite or by an expired [get]. *)
Theorem memory_timers_stay_paired events (s : MemoryStore.t) :
  timers_match_cache s -> timers_match_cache (play events s).
Proof.
  revert s. induction events as [|e events IH]; intros s Hs; [done|].
  simpl. apply IH. by apply timers_match_event.
Qed.

(** X10: a ttl that no timer can hold.  When [ttlSeconds * 1000] exceeds
    [TIMEOUT_MAX], the timer that [set] arms is due one millisecond later;
    once it has run, the record is gone, however far away its expiry is. *)
Theorem memory_long_ttl_is_reclaimed_at_once now key v ttl (s : MemoryStore.t) t t' :
  TIMEOUT_MAX < ttl * 1000 -> now + 1 <= t ->
  let s1 := snd (MemoryStore.set now key v ttl s) in
  JsMap.get key (cache s1) = Some {| value := v; expiresAt := now + ttl * 1000 |} /\
  intervals s1 !! key = Some (now + 1) /\
  fst (MemoryStore.get t' key (snd (timer_fires t key s1))) = Ok None.
Proof.
  intros Hbig Ht s1. unfold s1. rewrite memory_set_eq. simpl.
  assert (timer_delay (ttl * 1000) = 1) as ->.
  { unfold timer_delay. destruct (Z.leb_spec (ttl * 1000) TIMEOUT_MAX); [lia|].
    by rewrite andb_false_r. }
  split; [apply get_set_eq|]. split; [apply lookup_insert_eq|].
  unfold timer_fires. simpl. rewrite lookup_insert_eq.
  destruct (Z.leb_spec (now + 1) t); [|lia].
  rewrite memory_delete_eq. simpl. rewrite memory_get_absent; [done|].
  simpl. apply get_delete_eq.
Qed.
End WithJSON.
End MemoryStoreMore.

(** ** More on the three stores *)

Module StoresMore.

Section JsMapMore.
Context {V : Type}.
Implicit Types (m : JsMap.t V) (key : string) (v : V).

Lemma jsmap_set_set key v v' m :
  JsMap.set key v (JsMap.set key v' m) = JsMap.set key v m.
Proof.
  induction m as [|[k w] m IH]; simpl.
  - by rewrite String.eqb_refl.
  - destruct (String.eqb_spec k key) as [->|Hne]; simpl.
    + by rewrite String.eqb_refl.
    + destruct (String.eqb_spec k key); [done|]. by rewrite IH.
Qed.

Lemma jsmap_keys_set_absent key v m :
  JsMap.get key m = None -> JsMap.keys (JsMap.set key v m) = JsMap.keys m ++ [key].
Proof.
  unfold JsMap.keys. induction m as [|[k w] m IH]; simpl; [done|].
  destruct (String.eqb_spec k key); [done|]. intros Hm. simpl. f_equal. by apply IH.
Qed.

End JsMapMore.

Section Stores.
Context `{JSON} `{Pg.Codec}.

(** X11: [delete(key)] removes the record at once, in each store: a [get]
    at any later time returns none and changes nothing, no other key is
    touched (MemoryStore cancels the timer of [key] and no other), and a
    second [delete] changes nothing. *)
Theorem delete_removes_the_record :
  (forall key (s : MemoryStore.t),
     exists s', MemoryStore.delete key s = (Ok tt, s') /\
       (forall now, MemoryStore.get now key s' = (Ok None, s')) /\
       MemoryStore.intervals s' !! key = None /\
       (forall key', key' <> key ->
          JsMap.get key' (MemoryStore.cache s') = JsMap.get key' (MemoryStore.cache s) /\
          MemoryStore.intervals s' !! key' = MemoryStore.intervals s !! key') /\
       MemoryStore.delete key s' = (Ok tt, s'))
  /\
  (forall key (c : gmap string Mongo.Doc),
     exists c', MongoStore.delete key c = (Ok tt, c') /\
       (forall now, MongoStore.get now key c' = (Ok None, c')) /\
       (forall key', key' <> key -> c' !! key' = c !! key') /\
       MongoStore.delete key c' = (Ok tt, c'))
  /\
  (forall this key (db : gmap string (gmap string Pg.Row)) rows,
     db !! PostgresStore.table this = Some rows ->
     exists rows',
       let db' := <[PostgresStore.table this := rows']> db in
       PostgresStore.delete this key db = (Ok tt, db') /\
       (forall now, PostgresStore.get this now key db' = (Ok None, db')) /\
       (forall key', key' <> key -> rows' !! key' = rows !! key') /\
       PostgresStore.delete this key db' = (Ok tt, db')).
Proof.
  split; [|split].
  - intros key s. eexists. split; [apply MemoryStoreFacts.memory_delete_eq|].
    split; [|split; [|split]].
    + intros now. apply MemoryStoreFacts.memory_get_absent. simpl.
      apply JsMapFacts.get_delete_eq.
    + simpl. apply lookup_delete_eq.
    + intros key' Hne. simpl. split.
      * by apply JsMapFacts.get_delete_ne.
      * by apply lookup_delete_ne.
    + rewrite MemoryStoreFacts.memory_delete_eq. simpl. f_equal. f_equal.
      * apply JsMapFacts.delete_absent, JsMapFacts.get_delete_eq.
      * apply delete_id, lookup_delete_eq.
  - intros key c. eexists. split; [apply MongoStoreFacts.mongo_delete_eq|].
    split; [|split].
    + intros now. apply MongoStoreFacts.mongo_get_absent, lookup_delete_eq.
    + intros key' Hne. by apply lookup_delete_ne.
    + rewrite MongoStoreFacts.mongo_delete_eq. f_equal.
      apply delete_id, lookup_delete_eq.
  - intros this key db rows Hrows. exists (base.delete key rows). simpl.
    split; [by apply PostgresStoreFacts.pg_delete_eq|]. split; [|split].
    + intros now. eapply PostgresStoreFacts.pg_get_absent; [apply lookup_insert_eq|].
      apply lookup_delete_eq.
    + intros key' Hne. by apply lookup_delete_ne.
    + erewrite PostgresStoreFacts.pg_delete_eq by apply lookup_insert_eq.
      f_equal. rewrite insert_insert_eq. f_equal.
      apply delete_id, lookup_delete_eq.
Qed.


(** X13: [touch] is idempotent.  Repeating a [touch] at the same time with
    the same ttl leaves each store exactly as the first one left it. *)
Theorem touch_is_idempotent :
  (forall now key ttl (s : MemoryStore.t),
     MemoryStore.touch now key ttl (snd (MemoryStore.touch now key ttl s))
       = MemoryStore.touch now key ttl s)
  /\
  (forall now key ttl (c : gmap string Mongo.Doc),
     MongoStore.touch now key ttl (snd (MongoStore.touch now key ttl c))
       = MongoStore.touch now key ttl c)
  /\
  (forall this now key ttl (db : gmap string (gmap string Pg.Row)),
     PostgresStore.touch this now key ttl (snd (PostgresStore.touch this now key ttl db))
       = PostgresStore.touch this now key ttl db).
Proof.
  split; [|split].
  - intros now key ttl s.
    destruct (JsMap.get key (MemoryStore.cache s)) as [item|] eqn:Hitem.
    + rewrite (MemoryStoreFacts.memory_touch_present now key ttl item s) by done. simpl.
      rewrite (MemoryStoreFacts.memory_touch_present _ _ _
                 {| MemoryStore.value := MemoryStore.value item;
                    MemoryStore.expiresAt := now + ttl * 1000 |})
        by (simpl; apply JsMapFacts.get_set_eq).
      simpl. by rewrite jsmap_set_set, insert_insert_eq.
    + rewrite (MemoryStoreFacts.memory_touch_absent now key ttl s) by done. simpl.
      by rewrite MemoryStoreFacts.memory_touch_absent.
  - intros now key ttl c. rewrite !MongoStoreFacts.mongo_touch_eq. simpl. f_equal.
    apply map_eq. intros k. destruct (decide (key = k)) as [->|Hne].
    + rewrite !lookup_alter_eq. by destruct (c !! k) as [[]|].
    + by rewrite !lookup_alter_ne.
  - intros this now key ttl db.
    destruct (db !! PostgresStore.table this) as [rows|] eqn:Hrows.
    + rewrite (PostgresStoreFacts.pg_touch_eq this now key ttl db rows) by done. simpl.
      erewrite PostgresStoreFacts.pg_touch_eq by apply lookup_insert_eq.
      rewrite insert_insert_eq. f_equal. f_equal.
      apply map_eq. intros k. destruct (decide (key = k)) as [->|Hne].
      * rewrite !lookup_alter_eq. by destruct (rows !! k) as [[]|].
      * by rewrite !lookup_alter_ne.
    + unfold PostgresStore.touch, bind, Pg.query. simpl. rewrite Hrows. simpl. by rewrite Hrows.
Qed.

(** X14: [set] is an upsert.  When it completes, the store holds at [key]
    exactly the new payload, owner and expiry, whatever was there before,
    and every other key is as it was.  MemoryStore keeps the place of a
    key that was present and appends a new key after the others. *)
Theorem set_is_an_upsert :
  (forall now key v ttl (s : MemoryStore.t),
     exists s', MemoryStore.set now key v ttl s = (Ok tt, s') /\
       JsMap.get key (MemoryStore.cache s')
         = Some {| MemoryStore.value := v; MemoryStore.expiresAt := now + ttl * 1000 |} /\
       (forall key', key' <> key ->
          JsMap.get key' (MemoryStore.cache s') = JsMap.get key' (MemoryStore.cache s) /\
          MemoryStore.intervals s' !! key' = MemoryStore.intervals s !! key') /\
       (is_Some (JsMap.get key (MemoryStore.cache s)) ->
        JsMap.keys (MemoryStore.cache s') = JsMap.keys (MemoryStore.cache s)) /\
       (JsMap.get key (MemoryStore.cache s) = None ->
        JsMap.keys (MemoryStore.cache s') = JsMap.keys (MemoryStore.cache s) ++ [key]))
  /\
  (forall now key value ttl (c : gmap string Mongo.Doc),
     fst (MongoStore.set now key value ttl c) = Ok tt ->
     exists id,
       get_prop (MongoStore.parsed_or_empty value) "id" = Ok id /\
       snd (MongoStore.set now key value ttl c) !! key
         = Some {| Mongo._id := key; Mongo.data := value; Mongo.userId := id;
                   Mongo.expiresAt := now + ttl * 1000 |} /\
       forall key', key' <> key ->
         snd (MongoStore.set now key value ttl c) !! key' = c !! key')
  /\
  (forall this now key value ttl (db : gmap string (gmap string Pg.Row)),
     fst (PostgresStore.set this now key value ttl db) = Ok tt ->
     exists parsed id stored owner,
       JSON_parse value = Some parsed /\ get_prop parsed "id" = Ok id /\
       Pg.to_jsonb parsed = Some stored /\ Pg.to_text id = Some owner /\
       row_at this (snd (PostgresStore.set this now key value ttl db)) key
         = Some {| Pg.sid := key; Pg.sess := stored; Pg.user_id := owner;
                   Pg.expired_at := now + ttl * 1000 |} /\
       forall key', key' <> key ->
         row_at this (snd (PostgresStore.set this now key value ttl db)) key'
           = row_at this db key').
Proof.
  split; [|split].
  - intros now key v ttl s. eexists. split; [apply MemoryStoreFacts.memory_set_eq|].
    simpl. split; [apply JsMapFacts.get_set_eq|]. split; [|split].
    + intros key' Hne. split.
      * by apply JsMapFacts.get_set_ne.
      * by apply lookup_insert_ne.
    + apply JsMapFacts.keys_set_present.
    + apply jsmap_keys_set_absent.
  - intros now key value ttl c Hok.
    destruct (get_prop (MongoStore.parsed_or_empty value) "id") as [id|e] eqn:Hid.
    + exists id. split; [done|].
      rewrite (MongoStoreFacts.mongo_set_eq _ _ _ _ id) by done. simpl.
      split; [apply lookup_insert_eq|]. intros key' Hne. by apply lookup_insert_ne.
    + by rewrite (MongoStoreFacts.mongo_set_throws _ _ _ _ e) in Hok.
  - intros this now key value ttl db Hok.
    destruct (PostgresStore.set this now key value ttl db) as [res db'] eqn:Hset.
    simpl in Hok. subst res. simpl.
    destruct (db !! PostgresStore.table this) as [rows|] eqn:Hrows.
    + destruct (PostgresStoreFacts.pg_set_Ok this now key value ttl db rows db' Hrows Hset)
        as (parsed & id & stored & owner & Hp & Hid & Hst & Ho & Hdb').
      rewrite Hdb'. clear Hdb'.
      exists parsed, id, stored, owner. repeat (split; [done|]). split.
      * by rewrite Survival.row_at_insert, lookup_insert_eq.
      * intros key' Hne. rewrite Survival.row_at_insert, lookup_insert_ne by done.
        unfold row_at. by rewrite Hrows.
    + exfalso. revert Hset. unfold PostgresStore.set, bind, lift, parse_or_throw.
      destruct (JSON_parse value) as [parsed|]; [|done].
      destruct (get_prop parsed "id") as [id|]; [|done].
      unfold Pg.query; simpl. by rewrite Hrows.
Qed.

Lemma pg_set_Throw this now key value ttl (db : gmap string (gmap string Pg.Row)) e db' :
  PostgresStore.set this now key value ttl db = (Throw e, db') -> db' = db.
Proof.
  unfold PostgresStore.set, bind, lift, parse_or_throw.
  destruct (JSON_parse value) as [parsed|]; [|by intros [= _ <-]].
  destruct (get_prop parsed "id") as [id|]; [|by intros [= _ <-]].
  unfold Pg.query; simpl. destruct (db !! PostgresStore.table this); [|by intros [= _ <-]].
  by destruct (Pg.to_jsonb parsed), (Pg.to_text id); intros [= _ <-].
Qed.

Lemma pg_no_table this now op (db : gmap string (gmap string Pg.Row)) :
  db !! PostgresStore.table this = None ->
  (forall key value ttl, op <> OSet key value ttl) ->
  step (store := PostgresStore_IStore this) now op db
    = (Throw (Error "relation does not exist"), db).
Proof.
  intros Hnone Hop.
  destruct op as [k value ttl|k|k ttl|k|u|u]; Survival.step_call @PostgresStore_IStore.
  - by destruct (Hop k value ttl).
  - unfold PostgresStore.get, bind, Pg.query. simpl. by rewrite Hnone.
  - unfold PostgresStore.touch, bind, Pg.query. simpl. by rewrite Hnone.
  - unfold PostgresStore.delete, bind, Pg.query. simpl. by rewrite Hnone.
  - unfold PostgresStore.findAllByUser, bind, Pg.query. simpl. by rewrite Hnone.
  - unfold PostgresStore.deleteByUser, bind, Pg.query. simpl. by rewrite Hnone.
Qed.

(** What a call other than [set] does when the table exists. *)
Lemma pg_step_on_table this now op (db : gmap string (gmap string Pg.Row)) rows :
  db !! PostgresStore.table this = Some rows ->
  (forall key value ttl, op <> OSet key value ttl) ->
  exists res rows',
    step (store := PostgresStore_IStore this) now op db
      = (Ok res, <[PostgresStore.table this := rows']> db).
Proof.
  intros Hrows Hop.
  destruct op as [k value ttl|k|k ttl|k|u|u]; Survival.step_call @PostgresStore_IStore.
  - by destruct (Hop k value ttl).
  - destruct (rows !! k) as [r|] eqn:Hr.
    + destruct (Z.le_gt_cases now (Pg.expired_at r)) as [Hle|Hgt].
      * rewrite (PostgresStoreFacts.pg_get_live _ _ _ r _ rows) by done.
        eexists _, rows. simpl. by rewrite insert_id.
      * rewrite (PostgresStoreFacts.pg_get_expired _ _ _ r _ rows) by done.
        by eexists _, _.
    + rewrite (PostgresStoreFacts.pg_get_absent _ _ _ _ rows) by done.
      eexists _, rows. simpl. by rewrite insert_id.
  - rewrite (PostgresStoreFacts.pg_touch_eq _ _ _ _ _ rows) by done. by eexists _, _.
  - rewrite (PostgresStoreFacts.pg_delete_eq _ _ _ rows) by done. by eexists _, _.
  - rewrite (PostgresStoreFacts.pg_findAllByUser_eq _ _ _ _ rows) by done.
    eexists _, rows. simpl. by rewrite insert_id.
  - rewrite (PostgresStoreFacts.pg_deleteByUser_eq _ _ _ rows) by done. by eexists _, _.
Qed.

(** X15: a PostgresStore call that throws has changed nothing, and no call
    ever changes a table other than the store's own.  [set] throws a
    SyntaxError for a value that is no JSON and a TypeError for the JSON text
    [null], in both cases before any statement is sent. *)
Theorem pg_calls_are_atomic_and_local this now op (db : gmap string (gmap string Pg.Row)) :
  (forall e, fst (step (store := PostgresStore_IStore this) now op db) = Throw e ->
     snd (step (store := PostgresStore_IStore this) now op db) = db)
  /\
  (forall other, other <> PostgresStore.table this ->
     snd (step (store := PostgresStore_IStore this) now op db) !! other = db !! other)
  /\
  (forall key value ttl, op = OSet key value ttl ->
     (JSON_parse value = None ->
      step (store := PostgresStore_IStore this) now op db = (Throw SyntaxError, db)) /\
     (JSON_parse value = Some JNull ->
      step (store := PostgresStore_IStore this) now op db = (Throw TypeError, db))).
Proof.
  assert ((exists key value ttl, op = OSet key value ttl) \/
          (forall key value ttl, op <> OSet key value ttl)) as [(key & value & ttl & ->)|Hop].
  { destruct op; try (by right); left; by eexists _, _, _. }
  - Survival.step_call @PostgresStore_IStore.
    destruct (PostgresStore.set this now key value ttl db) as [[[]|e'] db'] eqn:Hset; simpl.
    + split; [done|]. split.
      * intros other Hother.
        destruct (db !! PostgresStore.table this) as [rows|] eqn:Hrows.
        -- destruct (PostgresStoreFacts.pg_set_Ok this now key value ttl db rows db' Hrows Hset)
             as (? & ? & ? & ? & _ & _ & _ & _ & Hdb').
           rewrite Hdb'. by rewrite lookup_insert_ne.
        -- exfalso. revert Hset. unfold PostgresStore.set, bind, lift, parse_or_throw.
           destruct (JSON_parse value) as [parsed|]; [|done].
           destruct (get_prop parsed "id") as [id|]; [|done].
           unfold Pg.query; simpl. by rewrite Hrows.
      * intros ? ? ? [= <- <- <-]. revert Hset.
        unfold PostgresStore.set, bind, lift, parse_or_throw.
        split; intros Hp; by rewrite Hp in Hset.
    + pose proof (pg_set_Throw _ _ _ _ _ _ _ _ Hset) as ->.
      split; [done|]. split; [done|].
      intros ? ? ? [= <- <- <-]. revert Hset.
      unfold PostgresStore.set, bind, lift, parse_or_throw.
      split; intros Hp; rewrite Hp in Hset; simpl in Hset; by injection Hset as <-.
  - destruct (db !! PostgresStore.table this) as [rows|] eqn:Hrows.
    + destruct (pg_step_on_table this now op db rows Hrows Hop) as (res & rows' & ->). simpl.
      split; [done|]. split; [|intros k v t Heq; by destruct (Hop k v t)].
      intros other Hother. by rewrite lookup_insert_ne.
    + rewrite (pg_no_table this now op db Hrows Hop). simpl.
      split; [done|]. split; [done|]. intros k v t Heq. by destruct (Hop k v t).
Qed.



(** X17: a MongoStore session without an owner.  When the value passed to
    [set] is no JSON, or is JSON without an [id], the record is stored with
    no [userId]: [get] returns it, but no user owns it and no
    [deleteByUser] removes it. *)
Theorem mongo_set_without_owner now key value ttl (c : gmap string Mongo.Doc) :
  get_prop (MongoStore.parsed_or_empty value) "id" = Ok None ->
  let c' := snd (MongoStore.set now key value ttl c) in
  fst (MongoStore.set now key value ttl c) = Ok tt /\
  (forall now', now' <= now + ttl * 1000 ->
     MongoStore.get now' key c' = (Ok (Some value), c')) /\
  (forall u d, c' !! key = Some d -> ~ Mongo.owned_by u d) /\
  (forall u, snd (MongoStore.deleteByUser u c') !! key = c' !! key).
Proof.
  intros Hid c'. unfold c'.
  rewrite (MongoStoreFacts.mongo_set_eq _ _ _ _ None) by done. cbn [fst snd].
  set (d := {| Mongo._id := key; Mongo.data := value; Mongo.userId := None;
               Mongo.expiresAt := now + ttl * 1000 |}).
  split; [done|]. split; [|split].
  - intros now' Hnow'. rewrite (MongoStoreFacts.mongo_get_live _ _ d); [done| |done].
    apply lookup_insert_eq.
  - intros u d'. rewrite lookup_insert_eq. intros [= <-]. unfold Mongo.owned_by. simpl. done.
  - intros u. by rewrite MongoStoreFacts.mongo_deleteByUser_lookup, lookup_insert_eq.
Qed.

(** The text that is no JSON is such a value. *)
Lemma mongo_set_without_owner_no_json value :
  JSON_parse value = None -> get_prop (MongoStore.parsed_or_empty value) "id" = Ok None.
Proof. intros Hp. unfold MongoStore.parsed_or_empty. by rewrite Hp. Qed.

(** X18: what PostgresStore lists.  [findAllByUser(u)] at time [now]
    returns the JSON texts of exactly the rows of [u] whose expiry is
    strictly later than [now]. *)
Theorem pg_findAllByUser_lists_the_live_rows this now u
    (db : gmap string (gmap string Pg.Row)) rows x :
  db !! PostgresStore.table this = Some rows ->
  (exists l, fst (PostgresStore.findAllByUser this now u db) = Ok l /\ x ∈ l)
  <->
  (exists key r, rows !! key = Some r /\ Pg.user_id r = u /\ now < Pg.expired_at r /\
                 JSON_stringify (Pg.sess r) = x).
Proof.
  intros Hrows. split.
  - intros (l & Hl & Hx). by apply (PostgresStoreFacts.pg_findAllByUser_sound this now u db rows l).
  - intros (key & r & Hr & Hu & He & Hs).
    rewrite (PostgresStoreFacts.pg_findAllByUser_eq _ _ _ _ rows) by done. simpl.
    eexists. split; [done|].
    apply list_elem_of_In, in_map_iff. exists r. split; [done|].
    apply filter_In. split.
    + apply list_elem_of_In, list_elem_of_fmap. exists (key, r). split; [done|].
      by apply elem_of_map_to_list.
    + rewrite Hu, String.eqb_refl. simpl. by apply Z.gtb_lt.
Qed.

(** X19: the two boundaries of PostgresStore differ.  At the very instant
    of its expiry a row is still returned by [get], but it is no longer
    listed: [findAllByUser] of a user whose only row it is returns the empty
    list. *)
Theorem pg_boundary_of_get_and_listing_differ this now key r u
    (db : gmap string (gmap string Pg.Row)) rows :
  db !! PostgresStore.table this = Some rows ->
  rows !! key = Some r -> Pg.user_id r = u -> Pg.expired_at r = now ->
  (forall key' r', rows !! key' = Some r' -> Pg.user_id r' = u -> key' = key) ->
  PostgresStore.get this now key db = (Ok (Some (JSON_stringify (Pg.sess r))), db) /\
  PostgresStore.findAllByUser this now u db = (Ok [], db).
Proof.
  intros Hrows Hr Hu He Honly. split.
  - apply (PostgresStoreFacts.pg_get_live _ _ _ _ _ rows); [done|done|lia].
  - rewrite (PostgresStoreFacts.pg_findAllByUser_eq _ _ _ _ rows) by done. f_equal. f_equal.
    destruct (List.filter _ _) as [|r' l] eqn:Hf; [done|].
    assert (In r' (r' :: l)) as Hin by by left.
    rewrite <- Hf in Hin. apply filter_In in Hin as [Hin Hm].
    apply list_elem_of_In, list_elem_of_fmap in Hin as ([key' r''] & -> & Hin).
    apply elem_of_map_to_list in Hin. simpl in Hm.
    apply andb_prop in Hm as [Hm Hlive]. apply String.eqb_eq in Hm.
    pose proof (Honly key' r'' Hin Hm) as ->.
    rewrite Hr in Hin. injection Hin as <-. apply Z.gtb_lt in Hlive. lia.
Qed.
End Stores.

Section AnyModel.
Context `{JSON} {M : Type} `{Mongo.MongoModel M}.
Import Mongo.

(** X20: what [get] asks of the model.  Over any model, [get] issues one
    [findOne] and nothing else, unless the document found has expired: then,
    and only then, one [deleteOne] follows.  It never issues an update. *)
Theorem mongo_get_calls now key (w : M * list Call) :
  let log' := snd (snd (MongoStore.get now key w)) in
  (log' = snd w ++ [CallFindOne (ById key)] /\
   forall doc, fst (findOne (ById key) (fst w)) = Ok (Some doc) -> now <= expiresAt doc)
  \/
  (log' = snd w ++ [CallFindOne (ById key); CallDeleteOne (ById key)] /\
   exists doc, fst (findOne (ById key) (fst w)) = Ok (Some doc) /\ expiresAt doc < now).
Proof.
  destruct w as [m log]. unfold MongoStore.get, MongoStore.delete, bind. simpl.
  unfold logged. simpl.
  destruct (findOne (ById key) m) as [[[doc|]|e] m'] eqn:Hf; simpl.
  - destruct (Z.gtb_spec now (expiresAt doc)) as [Hgt|Hle].
    + right. simpl. destruct (deleteOne (ById key) m') as [[[]|e] m'']; simpl.
      * split; [by rewrite <- app_assoc|]. exists doc. split; [done|lia].
      * split; [by rewrite <- app_assoc|]. exists doc. split; [done|lia].
    + left. split; [done|]. intros ? [= <-]. lia.
  - left. by split.
  - left. by split.
Qed.

(** X21: values on which [set] fails before it reaches the model.  For the
    JSON text [null] both MongoStore classes throw a TypeError; for a text
    that is no JSON the older class throws a SyntaxError, while the current
    one goes on and writes the record with no [userId].  In the failing
    cases the model receives no call. *)
Theorem mongo_set_on_unusable_values now key value ttl (w : M * list Call) :
  (JSON_parse value = Some JNull ->
     MongoStore.set now key value ttl w = (Throw TypeError, w) /\
     MongoStoreOld.set now key value ttl w = (Throw TypeError, w))
  /\
  (JSON_parse value = None ->
     MongoStoreOld.set now key value ttl w = (Throw SyntaxError, w) /\
     snd (snd (MongoStore.set now key value ttl w))
       = snd w ++ [CallUpdateOne (ById key)
                     (SetSession key value None (now + ttl * 1000))
                     (Some {| upsert := true |})]).
Proof.
  split; intros Hp.
  - unfold MongoStore.set, MongoStoreOld.set, MongoStore.parsed_or_empty, bind, lift,
      parse_or_throw. by rewrite Hp.
  - unfold MongoStore.set, MongoStoreOld.set, MongoStore.parsed_or_empty, bind, lift,
      parse_or_throw. rewrite Hp. split; [done|]. simpl. unfold logged.
    by destruct (updateOne _ _ _ _) as [r m'].
Qed.
End AnyModel.
End StoresMore.

(** * Instances of the further properties *)

Module MoreWitnesses.
Import Samples SampleStates.
#[local] Existing Instance JsonText_JSON.
#[local] Existing Instance NodePg.codec.

(** X7 at work: the sample store lists the session of u1. *)
Lemma memory_findAllByUser_lists_the_owned_witness :
  MemoryStore.findAllByUser "u1" memory_s1 = (Ok [session_u1], memory_s1).
Proof.
  rewrite (MemoryStoreMore.memory_findAllByUser_lists_the_owned "u1" memory_s1); [reflexivity|].
  intros entry Hin. apply list_elem_of_singleton in Hin as ->. by vm_compute.
Defined.

(** X8 at work: a store that also holds the text [null]. *)
Lemma memory_findAllByUser_throws_on_null_witness :
  fst (MemoryStore.findAllByUser "u1"
         (snd (MemoryStore.set 5 "s0" (JString "null") 60 memory_s1))) = Throw TypeError.
Proof.
  rewrite (MemoryStoreMore.memory_findAllByUser_throws_on_null "u1" _
             ("s0", {| MemoryStore.value := JString "null"; MemoryStore.expiresAt := 60005 |}));
    [reflexivity| |reflexivity].
  apply list_elem_of_further, list_elem_of_here.
Defined.

(** X9 at work: calls and a timer callback on the new store. *)
Lemma memory_timers_stay_paired_witness :
  MemoryListing.timers_match_cache
    (MemoryEvents.play
       [MemoryEvents.Call 0 (OSet "s1" (JString session_u1) 1);
        MemoryEvents.Call 10 (OSet "s2" (JString session_u1) 60);
        MemoryEvents.TimerFires 1000 "s1";
        MemoryEvents.Call 2000 (OTouch "s2" 60);
        MemoryEvents.Call 3000 (ODelete "s2")]
       MemoryStore.new).
Proof.
  apply MemoryStoreMore.memory_timers_stay_paired.
  intros key. simpl. rewrite lookup_empty. split; by intros [? ?].
Defined.

(** X10 at work: a session of 30 days, and a timer that runs after a
    second. *)
Lemma memory_long_ttl_is_reclaimed_at_once_witness :
  fst (MemoryStore.get 2000 "s1"
         (snd (MemoryStore.timer_fires 1000 "s1"
                 (snd (MemoryStore.set 0 "s1" (JString session_u1) 2592000 MemoryStore.new)))))
    = Ok None.
Proof.
  apply (MemoryStoreMore.memory_long_ttl_is_reclaimed_at_once
           0 "s1" (JString session_u1) 2592000 MemoryStore.new 1000 2000);
    by vm_compute.
Defined.

(** X11 at work: the sample row is deleted. *)
Lemma delete_removes_the_record_witness :
  fst (PostgresStore.get auth_sessions 500 "s1"
         (snd (PostgresStore.delete auth_sessions "s1" database_s1))) = Ok None.
Proof.
  destruct (StoresMore.delete_removes_the_record) as (_ & _ & Hpg).
  destruct (Hpg auth_sessions "s1" database_s1 {["s1" := row_s1]} eq_refl)
    as (rows' & Hd & Hget & _).
  rewrite Hd. simpl. by rewrite Hget.
Defined.


(** X14 at work: overwriting the sample session. *)
Lemma set_is_an_upsert_witness :
  exists id,
    snd (MongoStore.set 7 "s1" session_u1_spaced 60 collection_s1) !! "s1"
      = Some {| Mongo._id := "s1"; Mongo.data := session_u1_spaced; Mongo.userId := id;
                Mongo.expiresAt := 60007 |}.
Proof.
  destruct (StoresMore.set_is_an_upsert) as (_ & Hmongo & _).
  destruct (Hmongo 7 "s1" session_u1_spaced 60 collection_s1 eq_refl) as (id & _ & Hd & _).
  by exists id.
Defined.

(** X15 at work: a value that is no JSON. *)
Lemma pg_calls_are_atomic_and_local_witness :
  step (store := PostgresStore_IStore auth_sessions) 0 (OSet "s1" "no json" 60) empty_database
    = (Throw SyntaxError, empty_database).
Proof.
  destruct (StoresMore.pg_calls_are_atomic_and_local auth_sessions 0
              (OSet "s1" "no json" 60) empty_database) as (_ & _ & Hset).
  by apply (Hset "s1" "no json" 60 eq_refl).
Defined.


(** X17 at work: a value that is no JSON. *)
Lemma mongo_set_without_owner_witness :
  snd (MongoStore.deleteByUser "u1" (snd (MongoStore.set 0 "s1" "no json" 60 empty_collection)))
    !! "s1"
  = snd (MongoStore.set 0 "s1" "no json" 60 empty_collection) !! "s1".
Proof.
  assert (Hid : get_prop (MongoStore.parsed_or_empty "no json") "id" = Ok None)
    by (by vm_compute).
  destruct (StoresMore.mongo_set_without_owner 0 "s1" "no json" 60 empty_collection Hid)
    as (_ & _ & _ & Hkeep).
  apply (Hkeep "u1").
Defined.

(** X18 at work: the sample row is listed before its expiry. *)
Lemma pg_findAllByUser_lists_the_live_rows_witness :
  exists l, fst (PostgresStore.findAllByUser auth_sessions 999 "u1" database_s1) = Ok l /\
            session_u1 ∈ l.
Proof.
  apply (StoresMore.pg_findAllByUser_lists_the_live_rows
           auth_sessions 999 "u1" database_s1 {["s1" := row_s1]} session_u1 eq_refl).
  exists "s1", row_s1. by vm_compute.
Defined.

(** X19 at work: the sample row at 1000, the instant of its expiry. *)
Lemma pg_boundary_of_get_and_listing_differ_witness :
  PostgresStore.get auth_sessions 1000 "s1" database_s1
    = (Ok (Some (JSON_stringify (Pg.sess row_s1))), database_s1) /\
  PostgresStore.findAllByUser auth_sessions 1000 "u1" database_s1 = (Ok [], database_s1).
Proof.
  apply (StoresMore.pg_boundary_of_get_and_listing_differ
           auth_sessions 1000 "s1" row_s1 "u1" database_s1 {["s1" := row_s1]});
    try reflexivity.
  intros key' r' Hr' _. apply lookup_singleton_Some in Hr' as [-> _]. reflexivity.
Defined.

(** X21 at work: the text [null] on the reference collection. *)
Lemma mongo_set_on_unusable_values_witness :
  MongoStore.set 0 "s1" "null" 60 (empty_collection, []) = (Throw TypeError, (empty_collection, [])).
Proof.
  destruct (StoresMore.mongo_set_on_unusable_values (M := gmap string Mongo.Doc)
              0 "s1" "null" 60 (empty_collection, [])) as [Hnull _].
  by apply Hnull.
Defined.
End MoreWitnesses.
